(** * TikZ picture preview: region tracking and preamble cache

    A shallow embedding of [src/components/tikzpreview.ts] (class
    [TikzPictureView]) together with the properties of its edit tracking,
    preamble cache and fragment cache.

    Conventions of the embedding.
    - JavaScript numbers holding line and column numbers are non-negative
      integers ([nat]); line deltas and time stamps are integers ([Z]).
    - Objects that the code mutates in place and compares by reference
      ([IFileTikzPicture]) live in a store indexed by references; the
      [tikzPictures] array of a collection holds references.
    - A method is a computation in a state-and-exception monad: a thrown
      exception (a rejected promise for an [async] method) keeps the
      mutations done before it.
    - The host editor, the viewer, the configuration, the clock and the
      external processes are collaborators, gathered in [Env] and
      [TextDocument]. *)

From Stdlib Require Import ZArith Ascii String List Lia Bool DecimalString.
From stdpp Require Import base option list gmap strings.

Local Open Scope string_scope.
Local Open Scope Z_scope.

(** ** Outcomes of a call *)

Inductive outcome (A : Type) : Type :=
| Ret (a : A)
| Throw (e : string).
Arguments Ret {A} a.
Arguments Throw {A} e.

(** ** Positions and ranges of the host editor ([vscode.Position], [vscode.Range]) *)

Record Position : Type := mkPosition { line : nat; character : nat }.

Record Range : Type := mkRange { start : Position; end_ : Position }.

Module Pos.

Definition isBefore (a b : Position) : bool :=
  if (line a <? line b)%nat then true
  else if (line b <? line a)%nat then false
  else (character a <? character b)%nat.

Definition isEqual (a b : Position) : bool :=
  (line a =? line b)%nat && (character a =? character b)%nat.

Definition isAfter (a b : Position) : bool :=
  if (line a <? line b)%nat then false
  else if (line b <? line a)%nat then true
  else (character b <? character a)%nat.

(** [new Position(l, c)] throws on a negative line or character. *)
Definition create (l c : Z) : outcome Position :=
  if (l <? 0)%Z then Throw "illegal argument: line must be non-negative"
  else if (c <? 0)%Z then Throw "illegal argument: character must be non-negative"
  else Ret (mkPosition (Z.to_nat l) (Z.to_nat c)).

Definition translate (p : Position) (lineDelta characterDelta : Z) : outcome Position :=
  create (Z.of_nat (line p) + lineDelta) (Z.of_nat (character p) + characterDelta).

End Pos.

Module Rng.

(** [new Range(a, b)] orders its two arguments. *)
Definition create (a b : Position) : Range :=
  if Pos.isBefore a b then mkRange a b else mkRange b a.

Definition isEqual (r1 r2 : Range) : bool :=
  Pos.isEqual (start r1) (start r2) && Pos.isEqual (end_ r1) (end_ r2).

(** The invariant of every [vscode.Range]: the start is not after the end. *)
Definition ordered (r : Range) : Prop := Pos.isAfter (start r) (end_ r) = false.

End Rng.

(** ** Strings and the two marker patterns *)

Definition isWordChar (c : ascii) : bool :=
  let n := nat_of_ascii c in
  ((48 <=? n) && (n <=? 57) || (65 <=? n) && (n <=? 90)
   || (97 <=? n) && (n <=? 122) || (n =? 95))%nat.

Fixpoint dropString (n : nat) (s : string) : string :=
  match n, s with
  | O, _ => s
  | S n', String _ s' => dropString n' s'
  | S _, EmptyString => EmptyString
  end.

(** The fragment of regular expressions the two patterns use. *)
Inductive regex : Type :=
| Lit (l : string)
| StarCls (p : ascii -> bool)
| Seq (r1 r2 : regex)
| Alt (r1 r2 : regex).

(** Greedy star over a character class, backtracking into the continuation. *)
Fixpoint starCls {A} (p : ascii -> bool) (s : string) (k : string -> option A) : option A :=
  match s with
  | String c s' =>
      if p c then
        match starCls p s' k with
        | Some r => Some r
        | None => k s
        end
      else k s
  | EmptyString => k s
  end.

(** Backtracking matcher anchored at the head of [s]; alternatives are tried
    left to right, as a JavaScript [RegExp] does. *)
Fixpoint matchRe {A} (r : regex) (s : string) (k : string -> option A) : option A :=
  match r with
  | Lit l => if String.prefix l s then k (dropString (String.length l) s) else None
  | StarCls p => starCls p s k
  | Seq r1 r2 => matchRe r1 s (fun s' => matchRe r2 s' k)
  | Alt r1 r2 =>
      match matchRe r1 s k with
      | Some x => Some x
      | None => matchRe r2 s k
      end
  end.

(** Length of the match of [r] at the head of [s]. *)
Definition matchAt (r : regex) (s : string) : option nat :=
  matchRe r s (fun rest => Some (String.length s - String.length rest)%nat).

(** [s.match(r)] for a pattern without flags: index and length of the
    leftmost match. *)
Fixpoint searchFrom (r : regex) (s : string) (i : nat) : option (nat * nat) :=
  match matchAt r s with
  | Some len => Some (i, len)
  | None =>
      match s with
      | String _ s' => searchFrom r s' (S i)
      | EmptyString => None
      end
  end.

Definition reMatch (r : regex) (s : string) : option (nat * nat) := searchFrom r s 0.

(** [s.search(r)]: the index alone. *)
Definition reSearch (r : regex) (s : string) : option nat := fst <$> reMatch r s.

Definition tikzName : regex :=
  Alt (Lit "tikzpicture") (Seq (StarCls isWordChar) (Seq (Lit "tikz") (StarCls isWordChar))).

(** The pattern for an opening marker: backslash, [begin], an opening brace,
    then [tikzpicture] or a word containing [tikz], then a closing brace. *)
Definition startRegex : regex := Seq (Lit "\begin{") (Seq tikzName (Lit "}")).

(** The pattern for a closing marker: the same with [end]. *)
Definition endRegex : regex := Seq (Lit "\end{") (Seq tikzName (Lit "}")).

(** Modelled from the spec: [stripComments] of [../utils] is not part of the
    sources at hand.  The specification describes it as stripping
    single-line comments, "an unescaped comment-start character through end
    of line": on one line, everything from the first comment sign that is
    not preceded by a backslash is dropped. *)
Fixpoint stripFrom (escaped : bool) (sign : ascii) (s : string) : string :=
  match s with
  | EmptyString => EmptyString
  | String c s' =>
      if Ascii.eqb c sign && negb escaped then EmptyString
      else String c (stripFrom (Ascii.eqb c "\") sign s')
  end.

Definition stripComments (text : string) (commentSign : ascii) : string :=
  stripFrom false commentSign text.

(** [text.split('\n').length - 1] *)
Fixpoint countNewlines (s : string) : nat :=
  match s with
  | EmptyString => O
  | String c s' => if Ascii.eqb c "010" then S (countNewlines s') else countNewlines s'
  end.

(** [tempFile.replace(/\.tex$/, '.pdf')] *)
Fixpoint replaceTexSuffix (s : string) : string :=
  match s with
  | EmptyString => EmptyString
  | String c s' => if String.eqb s ".tex" then ".pdf" else String c (replaceTexSuffix s')
  end.

Definition upperChar (c : ascii) : ascii :=
  let n := nat_of_ascii c in
  if ((97 <=? n) && (n <=? 122))%nat then ascii_of_nat (n - 32) else c.

Fixpoint toLocaleUpperCase (s : string) : string :=
  match s with
  | EmptyString => EmptyString
  | String c s' => String (upperChar c) (toLocaleUpperCase s')
  end.

(** The identity under which the viewer knows the compiled picture. *)
Definition pdfUri (tempFile : string) : string :=
  toLocaleUpperCase (replaceTexSuffix tempFile).

(** ** The live document ([vscode.TextDocument]) *)

Record TextDocument : Type := mkTextDocument {
  fsPath : string;
  (** [lineAt(n).text]; [None] where the host throws (no such line). *)
  lineAt : nat -> option string;
  getText : Range -> string
}.

Module Change.
(** [vscode.TextDocumentContentChangeEvent] *)
Record t : Type := mk { range : Range; text : string }.
End Change.

(** A document given by its lines, for concrete runs. *)
Module Lines.

Definition lineText (ls : list string) (n : nat) : string := default "" (ls !! n).

Definition validatePosition (ls : list string) (p : Position) : Position :=
  let n := length ls in
  if (n <=? line p)%nat
  then mkPosition (n - 1) (String.length (lineText ls (n - 1)))
  else mkPosition (line p) (Nat.min (character p) (String.length (lineText ls (line p)))).

Fixpoint joinLines (ls : list string) : string :=
  match ls with
  | [] => ""
  | l :: ls' => String "010" (l +:+ joinLines ls')
  end.

Definition textOf (ls : list string) (r : Range) : string :=
  let a := validatePosition ls (start r) in
  let b := validatePosition ls (end_ r) in
  if (line a =? line b)%nat
  then String.substring (character a) (character b - character a) (lineText ls (line a))
  else dropString (character a) (lineText ls (line a))
       +:+ joinLines (take (line b - line a - 1) (drop (S (line a)) ls))
       +:+ String "010" (String.substring 0 (character b) (lineText ls (line b))).

Definition document (path : string) (ls : list string) : TextDocument :=
  mkTextDocument path (fun n => ls !! n) (textOf ls).

End Lines.

(** ** Data model *)

(** Reference to an [IFileTikzPicture] object. *)
Definition ref : Type := nat.

Record IFileTikzPicture : Type := mkPicture {
  range : Range;
  content : string;
  tempFile : string;
  lastChange : Z
}.

Module Coll.
(** [IFileTikzCollection] *)
Record t : Type := mk {
  texFileLocation : string;
  tempDir : string;
  tikzPictures : list ref;
  preamble : string;
  lastChange : Z
}.

Definition setPictures (l : list ref) (c : t) : t :=
  mk (texFileLocation c) (tempDir c) l (preamble c) (lastChange c).
Definition setPreamble (p : string) (c : t) : t :=
  mk (texFileLocation c) (tempDir c) (tikzPictures c) p (lastChange c).
Definition setLastChange (z : Z) (c : t) : t :=
  mk (texFileLocation c) (tempDir c) (tikzPictures c) (preamble c) z.
End Coll.

Definition setRange (r : Range) (p : IFileTikzPicture) : IFileTikzPicture :=
  mkPicture r (content p) (tempFile p) (lastChange p).
Definition setContent (c : string) (p : IFileTikzPicture) : IFileTikzPicture :=
  mkPicture (range p) c (tempFile p) (lastChange p).

(** ** Collaborators and observable effects *)

(** How the [pdftex] child process of [precompilePreamble] ends: it exits
    with a status, or the process emits [error] (it could not be run). *)
Inductive ProcOutcome : Type :=
| ProcExit (code : Z)
| ProcError (err : string).

Inductive Event : Type :=
| EvCleanupTempDir
| EvMkdir
| EvPrecompile (file preamble : string)
| EvCompile (tempFile content : string)
| EvRefresh (tempFile : string)
| EvOpenTab (tempFile : string)
| EvCleanup (tempFile : string)
| EvSetTimeout (delay : Z)
| EvUnhandledRejection (e : string).

Record Env : Type := mkEnv {
  (** configuration [latex-utilities.tikzpreview] *)
  delay : Z;
  timeout : Z;
  (** the successive readings of [+new Date()] *)
  clock : nat -> Z;
  (** size of the viewer's client set for a target, [None] for [undefined] *)
  getClientSet : string -> option nat;
  (** result of [generatePreamble] for a document path and [maxParsedLine]:
      it reads the configuration and the file system *)
  generatePreamble : string -> option nat -> string;
  (** fate of the [pdftex] process started on a preamble file *)
  pdftex : string -> string -> ProcOutcome;
  (** directory made by [fs.mkdtempSync] for a document *)
  mkdtempSync : string -> string
}.

Record State : Type := mkState {
  tikzCollections : gmap string Coll.t;
  store : gmap ref IFileTikzPicture;
  nextRef : ref;
  initalised : bool;
  ticks : nat;
  trace : list Event
}.

Definition setCollections (m : gmap string Coll.t) (s : State) : State :=
  mkState m (store s) (nextRef s) (initalised s) (ticks s) (trace s).
Definition setStore (h : gmap ref IFileTikzPicture) (s : State) : State :=
  mkState (tikzCollections s) h (nextRef s) (initalised s) (ticks s) (trace s).
Definition setNextRef (n : ref) (s : State) : State :=
  mkState (tikzCollections s) (store s) n (initalised s) (ticks s) (trace s).
Definition setInitalised (b : bool) (s : State) : State :=
  mkState (tikzCollections s) (store s) (nextRef s) b (ticks s) (trace s).
Definition setTicks (n : nat) (s : State) : State :=
  mkState (tikzCollections s) (store s) (nextRef s) (initalised s) n (trace s).
Definition setTrace (t : list Event) (s : State) : State :=
  mkState (tikzCollections s) (store s) (nextRef s) (initalised s) (ticks s) t.

(** ** The monad of methods *)

Definition M (A : Type) : Type := State -> outcome A * State.

Definition ret {A} (a : A) : M A := fun s => (Ret a, s).

Definition throw {A} (e : string) : M A := fun s => (Throw e, s).

Definition bind {A B} (m : M A) (k : A -> M B) : M B :=
  fun s =>
    match m s with
    | (Ret a, s') => k a s'
    | (Throw e, s') => (Throw e, s')
    end.

Notation "x <- m ;; k" := (bind m (fun x => k))
  (at level 20, m at level 99, k at level 200, only parsing).
Notation "m ;;; k" := (bind m (fun _ => k))
  (at level 20, k at level 200, only parsing).

Definition lift {A} (o : outcome A) : M A := fun s => (o, s).

Definition gets {A} (f : State -> A) : M A := fun s => (Ret (f s), s).

Definition modify (f : State -> State) : M unit := fun s => (Ret tt, f s).

Definition emit (e : Event) : M unit := modify (fun s => setTrace (trace s ++ [e]) s).

(** [+new Date()] *)
Definition now (E : Env) : M Z :=
  fun s => (Ret (clock E (ticks s)), setTicks (S (ticks s)) s).

(** A promise nobody awaits: it runs, and a rejection is not seen by the caller. *)
Definition detached {A} (m : M A) : M unit :=
  fun s =>
    match m s with
    | (Ret _, s') => (Ret tt, s')
    | (Throw e, s') => (Ret tt, setTrace (trace s' ++ [EvUnhandledRejection e]) s')
    end.

(** A promise that is started and not awaited while [m] runs: it goes on
    from its first [await] when [m] is over, whether [m] returned or
    threw; the outcome is that of [m]. *)
Definition withPending {A} (pending : M unit) (m : M A) : M A :=
  fun s =>
    match m s with
    | (o, s') => (o, snd (pending s'))
    end.

(** Reading and writing the objects. *)
Definition getPicture (p : ref) : M IFileTikzPicture :=
  fun s =>
    match store s !! p with
    | Some pic => (Ret pic, s)
    | None => (Throw "dangling reference", s)
    end.

Definition setPicture (p : ref) (pic : IFileTikzPicture) : M unit :=
  modify (fun s => setStore (<[p := pic]> (store s)) s).

Definition getCollection (key : string) : M Coll.t :=
  fun s =>
    match tikzCollections s !! key with
    | Some c => (Ret c, s)
    | None => (Throw "no such collection", s)
    end.

Definition updCollection (key : string) (f : Coll.t -> Coll.t) : M unit :=
  modify (fun s => setCollections (alter f key (tikzCollections s)) s).

(** ** Arrays of references *)

(** [l.indexOf(p)], [-1] when absent. *)
Fixpoint indexOf (l : list ref) (p : ref) : Z :=
  match l with
  | [] => -1
  | q :: l' => if (q =? p)%nat then 0 else
      let i := indexOf l' p in if (i <? 0)%Z then -1 else i + 1
  end.

(** [l.splice(from, 1)]: a negative index counts from the end. *)
Definition splice1 (l : list ref) (from : Z) : list ref :=
  let n := Z.of_nat (length l) in
  let i := if (from <? 0)%Z then Z.max (n + from) 0 else Z.min from n in
  delete (Z.to_nat i) l.

(** [l.includes(p)] *)
Definition includes (l : list ref) (p : ref) : bool := bool_decide (p ∈ l).

(** [path.join(dir, name)] for a directory name without a trailing separator. *)
Definition pathJoin (dir name : string) : string := dir +:+ "/" +:+ name.

Definition decimal (z : Z) : string := DecimalString.NilZero.string_of_int (Z.to_int z).

Inductive PreambleStatus : Type := stable | updated.

(** ** The methods of [TikzPictureView] *)

Section Methods.

Variable E : Env.

(** No viewer shows the picture: the client set is [undefined] or empty. *)
Definition viewerClosed (pic : IFileTikzPicture) : bool :=
  match getClientSet E (pdfUri (tempFile pic)) with
  | None => true
  | Some n => (n =? 0)%nat
  end.

Definition cleanupTikzPicture (p : ref) : M unit :=
  pic <- getPicture p ;;
  emit (EvCleanup (tempFile pic)).

Definition wrapper (content : string) : string :=
  "%&preamble" +:+ String "010" ("\begin{document}" +:+ String "010" (content
    +:+ String "010" "\end{document}")).

(** The failure of [latexmk] is caught and logged; the viewer is then
    refreshed, or a tab is opened when none shows the picture. *)
Definition updateTikzPicture (p : ref) : M unit :=
  pic <- getPicture p ;;
  emit (EvCompile (tempFile pic) (wrapper (content pic))) ;;;
  if viewerClosed pic then emit (EvOpenTab (tempFile pic))
  else emit (EvRefresh (tempFile pic)).

(** The [do ... while] loops of [processModificationToTikzPicture]: line
    [lineNo] is examined, and the loop goes on with the next line while
    nothing matched and [lineNo <= last]; [more] is the number of lines
    still to examine after this one, [S last - lineNo]. *)
Fixpoint scanLines (document : TextDocument) (re : regex) (strip : bool)
    (more lineNo : nat) : outcome (option (nat * (nat * nat))) :=
  match lineAt document lineNo with
  | None => Throw "Illegal value for `line`"
  | Some t =>
      match reMatch re (if strip then stripComments t "%" else t) with
      | Some m => Ret (Some (lineNo, m))
      | None =>
          match more with
          | O => Ret None
          | S more' => scanLines document re strip more' (S lineNo)
          end
      end
  end.

(** First half of [processModificationToTikzPicture]: [startLocation]. *)
Definition startLocation (document : TextDocument) (pic : IFileTikzPicture)
    (change : Change.t) : outcome (option Position) :=
  if (line (start (Change.range change)) <=? line (start (range pic)))%nat then
    match lineAt document (line (start (range pic))) with
    | None => Throw "Illegal value for `line`"
    | Some startLine =>
        match reSearch startRegex (stripComments startLine "%") with
        | Some tikzPictureStartIndex =>
            match Pos.translate (start (range pic)) 0
                    (Z.of_nat tikzPictureStartIndex - Z.of_nat (character (start (range pic)))) with
            | Ret p => Ret (Some p)
            | Throw e => Throw e
            end
        | None =>
            match scanLines document startRegex false
                    (S (line (end_ (range pic))) - line (start (Change.range change)))
                    (line (start (Change.range change))) with
            | Ret (Some (lineNo, (index, _))) => Ret (Some (mkPosition lineNo index))
            | Ret None => Ret None
            | Throw e => Throw e
            end
        end
    end
  else Ret None.

(** Second half: [endLocation]. *)
Definition endLocation (document : TextDocument) (pic : IFileTikzPicture)
    (change : Change.t) : outcome (option Position) :=
  if (line (end_ (range pic)) <=? line (end_ (Change.range change)))%nat then
    match scanLines document endRegex true
            (S (line (end_ (Change.range change))) - line (start (range pic)))
            (line (start (range pic))) with
    | Ret (Some (lineNo, (index, len))) => Ret (Some (mkPosition lineNo (index + len)))
    | Ret None => Ret None
    | Throw e => Throw e
    end
  else Ret None.

Definition processModificationToTikzPicture (document : TextDocument) (p : ref)
    (change : Change.t) (lineDelta : Z) : M unit :=
  pic <- getPicture p ;;
  startLoc <- lift (startLocation document pic change) ;;
  endLoc <- lift (endLocation document pic change) ;;
  let newStart := match startLoc with Some l => l | None => start (range pic) end in
  newEnd <- lift (match endLoc with
                  | Some l => Ret l
                  | None => Pos.translate (end_ (range pic)) lineDelta 0
                  end) ;;
  let r := Rng.create newStart newEnd in
  setPicture p (setContent (getText document r) (setRange r pic)).

Definition lineDeltaOf (change : Change.t) : Z :=
  Z.of_nat (countNewlines (Change.text change))
  - (Z.of_nat (line (end_ (Change.range change)))
     - Z.of_nat (line (start (Change.range change)))).

(** Body of the loop over the changes, for the picture [p] of the
    collection [key]; [toUpdate] is [tikzPicturesToUpdate]. *)
Definition applyChange (document : TextDocument) (key : string) (p : ref)
    (toUpdate : list ref) (change : Change.t) : M (list ref) :=
  let lineDelta := lineDeltaOf change in
  pic <- getPicture p ;;
  if Pos.isBefore (end_ (range pic)) (start (Change.range change)) then
    (* change after tikzpicture *)
    ret toUpdate
  else if Pos.isAfter (start (range pic)) (end_ (Change.range change)) then
    (* change before tikzpicture *)
    newStart <- lift (Pos.translate (start (range pic)) lineDelta 0) ;;
    newEnd <- lift (Pos.translate (end_ (range pic)) lineDelta 0) ;;
    setPicture p (setRange (Rng.create newStart newEnd) pic) ;;;
    ret toUpdate
  else if Pos.isAfter (end_ (Change.range change)) (start (range pic))
          && (Z.of_nat (line (end_ (Change.range change))) - lineDelta
              <? Z.of_nat (line (start (range pic))))%Z then
    (* tikzpicture removed *)
    updCollection key (fun c =>
      Coll.setPictures (splice1 (Coll.tikzPictures c) (indexOf (Coll.tikzPictures c) p)) c) ;;;
    cleanupTikzPicture p ;;;
    ret toUpdate
  else
    (* tikzpicture modified *)
    processModificationToTikzPicture document p change lineDelta ;;;
    ret (if includes toUpdate p then toUpdate else (toUpdate ++ [p])%list).

Fixpoint applyChanges (document : TextDocument) (key : string) (p : ref)
    (toUpdate : list ref) (changes : list Change.t) : M (list ref) :=
  match changes with
  | [] => ret toUpdate
  | change :: rest =>
      toUpdate' <- applyChange document key p toUpdate change ;;
      applyChanges document key p toUpdate' rest
  end.

(** Body of the loop over the pictures. *)
Definition visitPicture (document : TextDocument) (key : string) (changes : list Change.t)
    (p : ref) (toUpdate : list ref) : M (list ref) :=
  pic <- getPicture p ;;
  if viewerClosed pic then
    (* if viewer is closed, we remove preview. *)
    updCollection key (fun c =>
      Coll.setPictures (splice1 (Coll.tikzPictures c) (indexOf (Coll.tikzPictures c) p)) c) ;;;
    cleanupTikzPicture p ;;;
    ret toUpdate
  else applyChanges document key p toUpdate changes.

(** [for (const tikzPicture of tikzPictures)]: the iterator reads the
    live array at index [i] and stops when [i] is past its current end.
    The array never grows in the loop, so [bound], the number of
    elements from [i] on when the loop starts, is never used up. *)
Fixpoint forOfPictures (document : TextDocument) (key : string) (changes : list Change.t)
    (bound i : nat) (toUpdate : list ref) : M (list ref) :=
  c <- getCollection key ;;
  match Coll.tikzPictures c !! i with
  | None => ret toUpdate
  | Some p =>
      match bound with
      | O => throw "iteration bound exceeded"
      | S bound' =>
          toUpdate' <- visitPicture document key changes p toUpdate ;;
          forOfPictures document key changes bound' (S i) toUpdate'
      end
  end.

Fixpoint forEach {A} (f : A -> M unit) (l : list A) : M unit :=
  match l with
  | [] => ret tt
  | x :: l' => f x ;;; forEach f l'
  end.

(** The text written to the preamble file. *)
Definition preambleFileText (preamble : string) : string :=
  "\documentclass{standalone}" +:+ String "010" (String "010" (preamble
     +:+ String "010" (String "010" "\begin{document}\end{document}"))).

Definition precompilePreamble (file preamble : string) : M unit :=
  emit (EvPrecompile file (preambleFileText preamble)) ;;;
  match pdftex E file preamble with
  | ProcExit _ => ret tt
  | ProcError err => throw err
  end.

Definition checkPreamble (key : string) (maxParsedLine : option nat) : M PreambleStatus :=
  fileTikzCollection <- getCollection key ;;
  let generatedPreamble :=
    generatePreamble E (Coll.texFileLocation fileTikzCollection) maxParsedLine in
  if negb (String.eqb (Coll.preamble fileTikzCollection) generatedPreamble) then
    updCollection key (Coll.setPreamble generatedPreamble) ;;;
    precompilePreamble (pathJoin (Coll.tempDir fileTikzCollection) "preamble.tex")
      generatedPreamble ;;;
    c <- getCollection key ;;
    forEach updateTikzPicture (Coll.tikzPictures c) ;;;
    ret updated
  else ret stable.

Definition onFileChange (document : TextDocument) (changes : list Change.t)
    (waitedDelay : bool) : M unit :=
  let key := fsPath document in
  tikzFileCollection <- gets (fun s => tikzCollections s !! key) ;;
  let changeDelay := delay E in
  match tikzFileCollection with
  | None => ret tt
  | Some c0 =>
      if (changeDelay =? 0)%Z then ret tt
      else
        t1 <- now E ;;
        if (t1 - Coll.lastChange c0 <? changeDelay)%Z then
          if negb waitedDelay then
            t2 <- now E ;;
            updCollection key (Coll.setLastChange t2) ;;;
            emit (EvSetTimeout changeDelay)
          else ret tt
        else
          t2 <- now E ;;
          updCollection key (Coll.setLastChange t2) ;;;
          t3 <- now E ;;
          c1 <- getCollection key ;;
          if (timeout E <? t3 - Coll.lastChange c1)%Z then ret tt
          else
            (* the promise of [checkPreamble] is started before the loop and
               not awaited: it goes on from its first [await] after the
               synchronous part, also when the loop throws *)
            withPending (detached (checkPreamble key None))
              (toUpdate <- forOfPictures document key changes
                             (length (Coll.tikzPictures c1)) 0 [] ;;
               forEach (fun p => detached (updateTikzPicture p)) toUpdate)
  end.

Definition getFileTikzCollection (document : TextDocument) : M string :=
  let key := fsPath document in
  known <- gets (fun s => tikzCollections s !! key) ;;
  match known with
  | Some _ => ret key
  | None =>
      t <- now E ;;
      modify (fun s => setCollections
        (<[key := Coll.mk key (mkdtempSync E key) [] "" t]> (tikzCollections s)) s) ;;;
      ret key
  end.

Fixpoint findEntry (pics : list ref) (r : Range) : M (option ref) :=
  match pics with
  | [] => ret None
  | p :: rest =>
      tikzPicture <- getPicture p ;;
      if Rng.isEqual (range tikzPicture) r then ret (Some p) else findEntry rest r
  end.

Definition getTikzEntry (key : string) (r : Range) (content : string) : M ref :=
  tikzCollection <- getCollection key ;;
  found <- findEntry (Coll.tikzPictures tikzCollection) r ;;
  match found with
  | Some p => ret p
  | None =>
      t1 <- now E ;;
      let tempFile := pathJoin (Coll.tempDir tikzCollection)
                        ("tikzpicture-" +:+ decimal (Z.rem t1 100000000) +:+ ".tex") in
      t2 <- now E ;;
      p <- gets nextRef ;;
      modify (fun s => setNextRef (S p) s) ;;;
      setPicture p (mkPicture r content tempFile t2) ;;;
      updCollection key (fun c => Coll.setPictures (Coll.tikzPictures c ++ [p])%list c) ;;;
      ret p
  end.

(** [view] up to the fragment it resolves to. *)
Definition viewEntry (document : TextDocument) (r : Range) : M (string * ref) :=
  init <- gets initalised ;;
  (if init then ret tt
   else emit EvCleanupTempDir ;;; emit EvMkdir ;;; modify (setInitalised true)) ;;;
  key <- getFileTikzCollection document ;;
  p <- getTikzEntry key r (getText document r) ;;
  ret (key, p).

(** [view] from the preamble check on. *)
Definition viewRefresh (key : string) (p : ref) (r : Range) : M unit :=
  preambleStatus <- checkPreamble key (Some (line (start r))) ;;
  match preambleStatus with
  | stable => updateTikzPicture p
  | updated => ret tt
  end.

Definition view (document : TextDocument) (r : Range) : M unit :=
  kp <- viewEntry document r ;;
  viewRefresh (fst kp) (snd kp) r.

End Methods.

(** ** Notions used to state the properties *)

(** Every reference of the list denotes an object of the store. *)
Definition allocated (s : State) (pics : list ref) : Prop :=
  Forall (fun q => is_Some (store s !! q)) pics.

(** What the refresh half of [view] leaves alone. *)
Definition sameFragments (key : string) (s s' : State) : Prop :=
  store s' = store s
  /\ initalised s' = initalised s
  /\ Coll.tikzPictures <$> (tikzCollections s' !! key)
     = Coll.tikzPictures <$> (tikzCollections s !! key).

(** Number of fragment recompilations recorded in a trace. *)
Fixpoint recompilations (t : list Event) : nat :=
  match t with
  | [] => O
  | EvCompile _ _ :: t' => S (recompilations t')
  | _ :: t' => recompilations t'
  end.

(** What one call of [updateTikzPicture] does to the outside. *)
Definition updateEvents (E : Env) (pic : IFileTikzPicture) : list Event :=
  [EvCompile (tempFile pic) (wrapper (content pic));
   if viewerClosed E pic then EvOpenTab (tempFile pic) else EvRefresh (tempFile pic)].

Definition updateEventsOf (E : Env) (h : gmap ref IFileTikzPicture) (pics : list ref) : list Event :=
  flat_map (fun p => match h !! p with Some pic => updateEvents E pic | None => [] end) pics.

(** The precompile step did not produce what it was run for: the process
    could not be run, or it ended with a non-zero status. *)
Definition precompileFailed (o : ProcOutcome) : Prop :=
  match o with
  | ProcExit code => code <> 0
  | ProcError _ => True
  end.

(** Length of the [tikzPictures] array of a collection. *)
Definition picsLen (key : string) (s : State) : nat :=
  match tikzCollections s !! key with
  | Some c => length (Coll.tikzPictures c)
  | None => O
  end.

(** The end handed to the range constructor by
    [processModificationToTikzPicture]. *)
Definition newEndOf (pic : IFileTikzPicture) (endLoc : option Position) (lineDelta : Z)
  : outcome Position :=
  match endLoc with
  | Some l => Ret l
  | None => Pos.translate (end_ (range pic)) lineDelta 0
  end.

(** The outcome of a re-anchoring that hands [a] and [b] to the range
    constructor: the picture gets the range and the text read over it;
    the collections are as before. *)
Definition reanchored (document : TextDocument) (p : ref) (pic : IFileTikzPicture)
    (a b : Position) (s : State) : outcome unit * State :=
  let r := Rng.create a b in
  (Ret tt, setStore (<[p := setContent (getText document r) (setRange r pic)]> (store s)) s).

(** The outcome of a re-anchoring that leaves the picture with the range
    [r] and the text read over it; the collections are as before. *)
Definition anchored (document : TextDocument) (p : ref) (pic : IFileTikzPicture)
    (r : Range) (s : State) : outcome unit * State :=
  (Ret tt, setStore (<[p := setContent (getText document r) (setRange r pic)]> (store s)) s).

(** No line from [from] to [to] carries the marker: each of them exists
    and the pattern does not match it. *)
Definition noMarker (document : TextDocument) (re : regex) (strip : bool) (from to : nat) : Prop :=
  forall j, (from <= j <= to)%nat ->
    exists t, lineAt document j = Some t
              /\ reMatch re (if strip then stripComments t "%" else t) = None.

(** The opening marker is looked for and not found: the edit starts on or
    above the fragment's first line, that line has no marker once its
    comments are stripped, and no line from the edit's first line to the
    line after the fragment's last line has one. *)
Definition openingMiss (document : TextDocument) (pic : IFileTikzPicture) (change : Change.t)
  : Prop :=
  (line (start (Change.range change)) <= line (start (range pic)))%nat
  /\ noMarker document startRegex true (line (start (range pic))) (line (start (range pic)))
  /\ noMarker document startRegex false (line (start (Change.range change)))
       (Nat.max (line (start (Change.range change))) (S (line (end_ (range pic))))).

(** The closing marker is looked for and not found: the edit ends on or
    below the fragment's last line, and no line from the fragment's first
    line to the line after the edit's last line has the marker once its
    comments are stripped. *)
Definition closingMiss (document : TextDocument) (pic : IFileTikzPicture) (change : Change.t)
  : Prop :=
  (line (end_ (range pic)) <= line (end_ (Change.range change)))%nat
  /\ noMarker document endRegex true (line (start (range pic)))
       (Nat.max (line (start (range pic))) (S (line (end_ (Change.range change))))).

(** The re-anchoring of the start in the words of the specification: when
    the edit starts at or before the fragment's start, the lines from the
    edited line on are searched, each with its line comments stripped, for
    the opening marker; a match before the fragment's prior end is the new
    start, and otherwise the start stays. *)
Fixpoint specSearchStart (lines : list string) (lineNo : nat) : option Position :=
  match lines with
  | [] => None
  | t :: rest =>
      match reSearch startRegex (stripComments t "%") with
      | Some index => Some (mkPosition lineNo index)
      | None => specSearchStart rest (S lineNo)
      end
  end.

Definition specNewStart (lines : list string) (pic : IFileTikzPicture) (change : Change.t)
  : Position :=
  if Pos.isAfter (start (Change.range change)) (start (range pic)) then start (range pic)
  else
    match specSearchStart (drop (line (start (Change.range change))) lines)
            (line (start (Change.range change))) with
    | Some pos => if Pos.isBefore pos (end_ (range pic)) then pos else start (range pic)
    | None => start (range pic)
    end.

(** ** Concrete sessions *)

Module Scenario.

Definition path : string := "/work/doc.tex".
Definition dir : string := "/tmp/vscode-latexutils/tikzpreview-doc-x1".
Definition fileA : string := "/tmp/vscode-latexutils/tikzpreview-doc-x1/tikzpicture-1.tex".
Definition fileB : string := "/tmp/vscode-latexutils/tikzpreview-doc-x1/tikzpicture-2.tex".

Definition pos (l c : nat) : Position := mkPosition l c.
Definition rng (l1 c1 l2 c2 : nat) : Range := mkRange (pos l1 c1) (pos l2 c2).

(** A viewer that shows the listed targets to one client each. *)
Definition viewer (shown : list string) (uri : string) : option nat :=
  if bool_decide (uri ∈ shown) then Some 1%nat else None.

Definition env (shown : list string) (generated : string) (proc : ProcOutcome) : Env :=
  mkEnv 1500 15000 (fun n => 100000 + Z.of_nat n) (viewer shown)
    (fun _ _ => generated) (fun _ _ => proc) (fun _ => dir).

Definition session (pics : list ref) (preamble : string) (h : list (ref * IFileTikzPicture))
  : State :=
  mkState {[ path := Coll.mk path dir pics preamble 0 ]} (list_to_map h)
    (length h) true 0 [].

Definition picsOf (s : State) : option (list ref) :=
  Coll.tikzPictures <$> (tikzCollections s !! path).

Definition rangeOf (s : State) (p : ref) : option Range := range <$> (store s !! p).

(** Two pictures, three lines each. *)
Definition picA : IFileTikzPicture := mkPicture (rng 0 0 2 17) "A" fileA 0.
Definition picB : IFileTikzPicture := mkPicture (rng 4 0 6 17) "B" fileB 0.
Definition twoPictures : list string :=
  ["\begin{tikzpicture}"; "\draw (0,0);"; "\end{tikzpicture}"; "text";
   "\begin{tikzpicture}"; "\draw (1,1);"; "\end{tikzpicture}"; "more text"].

(** Both pictures are shown, and the stored preamble is the generated one. *)
Definition twoOpen : Env := env [pdfUri fileA; pdfUri fileB] "P" (ProcExit 0).
Definition two : State := session [0%nat; 1%nat] "P" [(0%nat, picA); (1%nat, picB)].

(** A session tracking a single picture. *)
Definition one (pic : IFileTikzPicture) : State := session [0%nat] "P" [(0%nat, pic)].

(** Typing at the end of the document. *)
Definition typeAtEnd : Change.t := Change.mk (rng 7 9 7 9) "!".

(** An edit inside the first picture. *)
Definition editInA : Change.t := Change.mk (rng 1 0 1 12) "\draw (2,2);".
Definition twoPicturesEdited : list string :=
  ["\begin{tikzpicture}"; "\draw (2,2);"; "\end{tikzpicture}"; "text";
   "\begin{tikzpicture}"; "\draw (1,1);"; "\end{tikzpicture}"; "more text"].

(** Three lines pasted over four characters of the line between the pictures. *)
Definition pasteBetween : Change.t :=
  Change.mk (rng 3 0 3 4) ("a" +:+ String "010" ("b" +:+ String "010" "c")).

(** A picture on one line, and [Enter] typed right after it. *)
Definition picLine : IFileTikzPicture := mkPicture (rng 3 0 3 48) "L" fileA 0.
Definition oneLine : list string :=
  ["a"; "b"; "c"; "\begin{tikzpicture}\draw (0,0);\end{tikzpicture}"; ""; "z"].
Definition enterAtEnd : Change.t := Change.mk (rng 3 48 3 48) (String "010" "").

(** A picture with a diagram inside, and a character typed right after it. *)
Definition picNested : IFileTikzPicture := mkPicture (rng 0 0 2 17) "N" fileA 0.
Definition nested : list string :=
  ["\begin{tikzpicture}"; "\node {\begin{tikzcd} A \end{tikzcd}};";
   "\end{tikzpicture}!"; "z"].
Definition typeAfter : Change.t := Change.mk (rng 2 17 2 17) "!".

(** Text with a diagram pasted over the two lines above a picture and the
    first five characters of its opening marker. *)
Definition picBelow : IFileTikzPicture := mkPicture (rng 2 0 4 17) "S" fileA 0.
Definition diagramAbove : list string :=
  ["\begin{tikzcd} A \end{tikzcd}"; "text"; "\begin{tikzpicture}"; "\draw (0,0);";
   "\end{tikzpicture}"; "z"].
Definition pasteAbove : Change.t :=
  Change.mk (rng 0 0 2 5)
    ("\begin{tikzcd} A \end{tikzcd}" +:+ String "010" ("text" +:+ String "010" "\begi")).

(** The opening marker moved one line down by a line typed in front of it. *)
Definition pushedDown : list string :=
  ["intro"; "\begin{tikzpicture}"; "\draw (0,0);"; "\end{tikzpicture}"; "z"].
Definition typeLineAbove : Change.t := Change.mk (rng 0 0 0 0) ("intro" +:+ String "010" "").

(** The closing marker replaced by two lines of text. *)
Definition endReplaced : list string :=
  ["\begin{tikzpicture}"; "\draw (0,0);"; "foo"; "bar"; "after"].
Definition replaceEnd : Change.t :=
  Change.mk (rng 2 0 2 17) ("foo" +:+ String "010" "bar").

(** The opening marker replaced by text on its line. *)
Definition startReplaced : list string :=
  ["nothing"; "\draw (0,0);"; "\end{tikzpicture}"; "z"; "z"].
Definition replaceStart : Change.t := Change.mk (rng 0 0 0 19) "nothing".

(** The first picture is shown by no viewer, the second one is; a line is
    typed above both. *)
Definition onlyB : Env := env [pdfUri fileB] "P" (ProcExit 0).
Definition twoPushedDown : list string := "intro" :: twoPictures.

(** A picture that begins on the line on which another one ends, and its
    middle line typed again. *)
Definition picShared : IFileTikzPicture := mkPicture (rng 0 18 2 17) "T" fileA 0.
Definition sharedLine : list string :=
  ["\end{tikzpicture} \begin{tikzpicture}"; "\draw (0,0);"; "\end{tikzpicture}"; "z"].
Definition retypeShared : Change.t :=
  Change.mk (rng 0 37 2 0) (String "010" ("\draw (0,0);" +:+ String "010" "")).

(** A picture tracked from column 20 of a line that ends a diagram, after
    its opening marker was typed over. *)
Definition picAfterDiagram : IFileTikzPicture := mkPicture (rng 0 20 2 0) "U" fileA 0.
Definition afterDiagram : list string := ["\end{tikzcd} and some text"; "b"; "c"; "d"].
Definition retypeAfterDiagram : Change.t :=
  Change.mk (rng 0 20 2 0) ("e text" +:+ String "010" ("b" +:+ String "010" "")).

(** The closing marker on the last line of the document replaced by text. *)
Definition endReplacedLast : list string := ["\begin{tikzpicture}"; "\draw (0,0);"; "foo"].
Definition replaceEndLast : Change.t := Change.mk (rng 2 0 2 17) "foo".

End Scenario.

(** ** Further notions *)

(** The array without the first occurrence of [p]. *)
Fixpoint removeFirst (p : ref) (l : list ref) : list ref :=
  match l with
  | [] => []
  | q :: l' => if (q =? p)%nat then l' else q :: removeFirst p l'
  end.

(** The state after picture [pic] left the array [pics'] of the collection
    [c] of [key] behind and its files were cleaned up. *)
Definition dropped (key : string) (c : Coll.t) (pics' : list ref) (pic : IFileTikzPicture)
    (s : State) : State :=
  setTrace (trace s ++ [EvCleanup (tempFile pic)])
    (setCollections (<[key := Coll.setPictures pics' c]> (tikzCollections s)) s).

(** The condition of the branch [tikzpicture removed] of [onFileChange],
    reached when the edit is neither after nor before the picture. *)
Definition removalCase (pic : IFileTikzPicture) (change : Change.t) : Prop :=
  Pos.isBefore (end_ (range pic)) (start (Change.range change)) = false
  /\ Pos.isAfter (start (range pic)) (end_ (Change.range change)) = false
  /\ Pos.isAfter (end_ (Change.range change)) (start (range pic)) = true
  /\ (Z.of_nat (line (end_ (Change.range change))) - lineDeltaOf change
      < Z.of_nat (line (start (range pic))))%Z.

(** What a pass over one document leaves alone: the temporary file and the
    time stamp of every stored picture (so no picture object appears or
    disappears), the collections of the other documents, the allocator
    and the initialisation flag; the tracked array of the document only
    loses elements. *)
Definition passFrame (key : string) (s s' : State) : Prop :=
  (forall q, tempFile <$> (store s' !! q) = tempFile <$> (store s !! q))
  /\ (forall q, lastChange <$> (store s' !! q) = lastChange <$> (store s !! q))
  /\ (forall k, k <> key -> tikzCollections s' !! k = tikzCollections s !! k)
  /\ nextRef s' = nextRef s
  /\ initalised s' = initalised s
  /\ match tikzCollections s !! key, tikzCollections s' !! key with
     | Some c, Some c' =>
         sublist (Coll.tikzPictures c') (Coll.tikzPictures c)
         /\ Coll.texFileLocation c' = Coll.texFileLocation c
         /\ Coll.tempDir c' = Coll.tempDir c
     | None, None => True
     | _, _ => False
     end.

(** A computation keeps a relation between the state before and after. *)
Definition keeps (R : State -> State -> Prop) {A} (m : M A) : Prop :=
  forall s, R s (snd (m s)).

(** The condition of the branch [tikzpicture modified] of [onFileChange]. *)
Definition modificationCase (pic : IFileTikzPicture) (change : Change.t) : Prop :=
  Pos.isBefore (end_ (range pic)) (start (Change.range change)) = false
  /\ Pos.isAfter (start (range pic)) (end_ (Change.range change)) = false
  /\ (Pos.isAfter (end_ (Change.range change)) (start (range pic)) = false
      \/ (Z.of_nat (line (start (range pic)))
          <= Z.of_nat (line (end_ (Change.range change))) - lineDeltaOf change)%Z).

(** Two batches of edits for one document, the second arriving before the
    timer of the first has fired, and then the timer of the first:
    [setTimeout] calls [onFileChange] again with [waitedDelay] set. *)
Definition overtaken (E : Env) (document : TextDocument) (first second : list Change.t)
  : M unit :=
  onFileChange E document first false ;;;
  onFileChange E document second false ;;;
  onFileChange E document first true.

(** ** The preamble generator ([generatePreamble]) *)

(** First index at which [pat] occurs in [s]. *)
Fixpoint searchSub (pat s : string) : option nat :=
  match s with
  | EmptyString => if String.prefix pat s then Some O else None
  | String _ s' => if String.prefix pat s then Some O else S <$> searchSub pat s'
  end.

(** [str.indexOf(pat, from)]: the start position is brought into the
    string; [-1] when [pat] does not occur from there on. *)
Definition jsIndexOf (str pat : string) (from : Z) : Z :=
  let i := Z.to_nat (Z.min (Z.max from 0) (Z.of_nat (String.length str))) in
  match searchSub pat (dropString i str) with
  | Some k => Z.of_nat (i + k)
  | None => -1
  end.

(** [str.includes(pat)] *)
Definition jsIncludes (str pat : string) : bool :=
  match searchSub pat str with
  | Some _ => true
  | None => false
  end.

(** [str.substring(0, k)] *)
Definition substring0 (str : string) (k : Z) : string :=
  String.substring 0 (Z.to_nat (Z.min (Z.max k 0) (Z.of_nat (String.length str)))) str.

(** [str.split(sep)[0]] for a separator that is not empty. *)
Definition firstPiece (sep str : string) : string :=
  match searchSub sep str with
  | Some k => String.substring 0 k str
  | None => str
  end.

(** [l.join(sep)] *)
Fixpoint joinWith (sep : string) (l : list string) : string :=
  match l with
  | [] => ""
  | [x] => x
  | x :: l' => x +:+ sep +:+ joinWith sep l'
  end.

(** The loop of the local function [nthIndex]:
    [while (n-- && i++ < L) { i = str.indexOf(pat, i); if (i < 0) break }].
    With [n] rounds left and the index at [i]: no round left, the loop
    ends; otherwise [i] is compared with [L] and incremented, and the loop
    ends on a failed comparison or, by [break], on a failed search. *)
Fixpoint nthIndexLoop (str pat : string) (n : nat) (i : Z) : Z :=
  match n with
  | O => i
  | S n' =>
      if (i <? Z.of_nat (String.length str))%Z then
        let i' := jsIndexOf str pat (i + 1) in
        if (i' <? 0)%Z then i' else nthIndexLoop str pat n' i'
      else i + 1
  end.

Definition nthIndex (str pat : string) (n : nat) : Z := nthIndexLoop str pat n (-1).

Definition newline : string := String "010" "".

(** The part of the document text that is searched for declarations:
    up to the [maxParsedLine]-th line break when that number is given and
    not zero, and up to the start of the document body otherwise. *)
Definition parsedWindow (content : string) (maxParsedLine : option nat) : string :=
  match maxParsedLine with
  | Some (S n) => substring0 content (nthIndex content newline (S n))
  | _ => firstPiece "\begin{document}" content
  end.

Definition trailer : string :=
  String "010" (String "010" ("\pdfcompresslevel=0" +:+ String "010" "\pdfobjcompresslevel=0")).

(** The end of [generatePreamble], from its local variables
    [commandsString], [commands] and [texFileParentFolder]. *)
Definition assemblePreamble (commandsString : string) (commands : list string)
    (texFileParentFolder : string) : string :=
  let preamble := commandsString +:+ newline +:+ joinWith newline commands in
  let preamble :=
    if jsIncludes preamble "\usepackage{tikz}" then preamble
    else String "010" ("\usepackage{tikz}" +:+ newline) +:+ preamble in
  let preamble :=
    preamble +:+ "\pgfplotsset{table/search path={" +:+ texFileParentFolder +:+ "}}" in
  preamble +:+ trailer.

(** Every character of the string is a word character. *)
Fixpoint allWord (w : string) : bool :=
  match w with
  | EmptyString => true
  | String c w' => isWordChar c && allWord w'
  end.

(** [path.replace(/\\/g, '/')]: every backslash becomes a slash. *)
Fixpoint toUnixPath (path : string) : string :=
  match path with
  | EmptyString => EmptyString
  | String c path' =>
      String (if Ascii.eqb c "\" then "/"%char else c) (toUnixPath path')
  end.

(** The class of the pattern of the file name: any character but a slash and a dot. *)
Definition isNameChar (c : ascii) : bool := negb (Ascii.eqb c "/") && negb (Ascii.eqb c ".").

(** What is left of [s] after its longest prefix of such characters. *)
Fixpoint afterName (s : string) : string :=
  match s with
  | EmptyString => EmptyString
  | String c s' => if isNameChar c then afterName s' else s
  end.

(** The pattern of the last path segment matches the whole of [s]: a
    slash, one or more characters other than a slash and a dot, a dot,
    and one or more word characters, up to the end.  The two repetitions
    are greedy, and giving characters back never helps: the character
    after the first must be the dot, which is not in its class, and the
    second must reach the end. *)
Definition isFileSegment (s : string) : bool :=
  match s with
  | String c (String c1 rest) =>
      Ascii.eqb c "/" && isNameChar c1
      && match afterName rest with
         | String d ext => Ascii.eqb d "." && negb (String.eqb ext "") && allWord ext
         | EmptyString => false
         end
  | _ => false
  end.

(** [path.replace(pattern, '')] for the pattern of the last path segment,
    which is anchored at the end: the string is cut at the first position
    from which the pattern matches, and left as it is when there is none. *)
Fixpoint parentFolder (path : string) : string :=
  if isFileSegment path then EmptyString
  else
    match path with
    | EmptyString => EmptyString
    | String c path' => String c (parentFolder path')
    end.

(** Number of occurrences of a character. *)
Fixpoint countChar (c : ascii) (s : string) : nat :=
  match s with
  | EmptyString => O
  | String c' s' => ((if Ascii.eqb c' c then 1 else 0) + countChar c s')%nat
  end.

(** What [generatePreamble] takes from outside: the configuration, the
    file system, the platform, and the results of the host's regular
    expression engine for three of the patterns it applies (the blank
    lines, the comments and the declarations). *)
Record PreambleSources : Type := mkPreambleSources {
  (** configuration *)
  preambleContents : string;
  parseTeXFile : bool;
  (** [path.isAbsolute], the workspace root, the platform *)
  isAbsolute : string -> bool;
  rootDir : string;
  win32 : bool;
  (** [fs.existsSync] and [fs.readFileSync]; [None] where reading throws *)
  existsSync : string -> bool;
  readFileSync : string -> option string;
  (** emptying the lines of white space in the extra declarations *)
  emptyBlankLines : string -> string;
  (** stripping the comments of the document text *)
  stripTeXComments : string -> string;
  (** the declarations matched in a text, in order *)
  declarationsIn : string -> list string
}.

Definition readOrThrow (P : PreambleSources) (file : string) : outcome string :=
  match readFileSync P file with
  | Some text => Ret text
  | None => Throw "ENOENT"
  end.

(** [commandsString] as read from the configured file, before the blank
    lines are emptied. *)
Definition extraDeclarations (P : PreambleSources) : outcome string :=
  let newCommandFile := preambleContents P in
  if String.eqb newCommandFile "" then Ret ""
  else if isAbsolute P newCommandFile then
    if existsSync P newCommandFile then readOrThrow P newCommandFile else Ret ""
  else
    let newCommandFileAbs := pathJoin (rootDir P) newCommandFile in
    if existsSync P newCommandFileAbs then readOrThrow P newCommandFileAbs else Ret "".

Definition generatePreambleFrom (P : PreambleSources) (texFileLocation : string)
    (maxParsedLine : option nat) : outcome string :=
  match extraDeclarations P with
  | Throw e => Throw e
  | Ret read =>
      let commandsString := emptyBlankLines P read in
      if negb (parseTeXFile P) then Ret commandsString
      else
        match readOrThrow P texFileLocation with
        | Throw e => Throw e
        | Ret text =>
            let content := parsedWindow (stripTeXComments P text) maxParsedLine in
            let commands := declarationsIn P content in
            let tikzFileUnixPath :=
              if win32 P then toUnixPath texFileLocation else texFileLocation in
            Ret (assemblePreamble commandsString commands (parentFolder tikzFileUnixPath))
        end
  end.

(** ** What the marker patterns accept *)

(** [matches r s rest]: the pattern [r] matches a prefix of [s] and leaves [rest]. *)
Inductive matches : regex -> string -> string -> Prop :=
| matches_lit (l rest : string) : matches (Lit l) (l +:+ rest) rest
| matches_star_nil (p : ascii -> bool) (s : string) : matches (StarCls p) s s
| matches_star_cons (p : ascii -> bool) (c : ascii) (s rest : string) :
    p c = true -> matches (StarCls p) s rest -> matches (StarCls p) (String c s) rest
| matches_seq (r1 r2 : regex) (s mid rest : string) :
    matches r1 s mid -> matches r2 mid rest -> matches (Seq r1 r2) s rest
| matches_alt_l (r1 r2 : regex) (s rest : string) :
    matches r1 s rest -> matches (Alt r1 r2) s rest
| matches_alt_r (r1 r2 : regex) (s rest : string) :
    matches r2 s rest -> matches (Alt r1 r2) s rest.

(** An environment name that the patterns take for a picture: word
    characters only, with [tikz] somewhere. *)
Definition tikzLike (w : string) : Prop := allWord w = true /\ jsIncludes w "tikz" = true.

(** ** A pass over pictures none of which is shown *)

(** The elements of [l] that the loop does not remove when it removes every
    element it visits: with [visit] set the head is visited (and removed),
    otherwise it is stepped over. *)
Fixpoint survivors (visit : bool) (l : list ref) : list ref :=
  match l with
  | [] => []
  | x :: l' => if visit then survivors false l' else x :: survivors true l'
  end.

(** The elements that are visited. *)
Fixpoint visited (visit : bool) (l : list ref) : list ref :=
  match l with
  | [] => []
  | x :: l' => if visit then x :: visited false l' else visited true l'
  end.

Definition cleanupsOf (h : gmap ref IFileTikzPicture) (l : list ref) : list Event :=
  flat_map (fun q => match h !! q with
                     | Some pic => [EvCleanup (tempFile pic)]
                     | None => []
                     end) l.

(** ** Further sessions *)

Module Cases.
Import Scenario.

(** A session whose document was edited at the very time of the clock. *)
Definition justEdited : State :=
  mkState {[ path := Coll.mk path dir [0%nat; 1%nat] "P" 100000 ]}
    (list_to_map [(0%nat, picA); (1%nat, picB)]) 2%nat true 0%nat [].

(** A session in which the first picture is stored but no longer tracked. *)
Definition untracked : State := session [1%nat] "P" [(0%nat, picLine); (1%nat, picB)].

(** A session that tracks the second picture only. *)
Definition lastOnly : State := session [1%nat] "P" [(0%nat, picA); (1%nat, picB)].

(** Everything from the second line on deleted. *)
Definition deleteTail : Change.t := Change.mk (rng 1 0 7 9) "".
Definition tailDeleted : list string := ["\begin{tikzpicture}"; ""].

(** A clock that advances by 50000 seconds per reading. *)
Definition slowClock : Env :=
  mkEnv 1500 15000 (fun n => 100000 + 50000000 * Z.of_nat n)
    (viewer [pdfUri fileA; pdfUri fileB]) (fun _ _ => "P") (fun _ _ => ProcExit 0)
    (fun _ => dir).

(** No extra declarations configured; two documents on disk, the second
    with a dot in its name. *)
Definition dotted : string := "/work/my.doc.tex".
Definition sources (parse : bool) : PreambleSources :=
  mkPreambleSources "" parse (fun _ => true) "/work" false (fun _ => false)
    (fun file => if String.eqb file path || String.eqb file dotted
                 then Some "\usepackage{pgfplots}" else None)
    (fun text => text) (fun text => text) (fun _ => ["\usepackage{pgfplots}"]).

End Cases.

(** * Properties *)

(** ** Positions *)

Lemma isBefore_spec a b :
  Pos.isBefore a b = true <->
  (line a < line b \/ (line a = line b /\ character a < character b))%nat.
Proof.
  unfold Pos.isBefore.
  destruct (Nat.ltb_spec (line a) (line b)); [intuition lia|].
  destruct (Nat.ltb_spec (line b) (line a)); [intuition (try discriminate; lia)|].
  rewrite Nat.ltb_lt. intuition lia.
Qed.

Lemma isBefore_false a b :
  Pos.isBefore a b = false <->
  (line b < line a \/ (line a = line b /\ character b <= character a))%nat.
Proof.
  destruct (Pos.isBefore a b) eqn:H.
  - apply isBefore_spec in H. intuition (try discriminate; lia).
  - assert (~ (line a < line b \/ (line a = line b /\ character a < character b))%nat) as H1
      by (rewrite <- isBefore_spec; congruence).
    intuition lia.
Qed.

Lemma isAfter_isBefore a b : Pos.isAfter a b = Pos.isBefore b a.
Proof.
  unfold Pos.isAfter, Pos.isBefore.
  destruct (Nat.ltb_spec (line a) (line b)), (Nat.ltb_spec (line b) (line a));
    try reflexivity; lia.
Qed.

Lemma isEqual_eq a b : Pos.isEqual a b = true <-> a = b.
Proof.
  unfold Pos.isEqual. rewrite andb_true_iff, !Nat.eqb_eq.
  destruct a, b; simpl. split; [intros [-> ->]; reflexivity | intros [= -> ->]; auto].
Qed.

Lemma range_isEqual_eq r1 r2 : Rng.isEqual r1 r2 = true <-> r1 = r2.
Proof.
  unfold Rng.isEqual. rewrite andb_true_iff, !isEqual_eq.
  destruct r1, r2; simpl. split; [intros [-> ->]; reflexivity | intros [= -> ->]; auto].
Qed.

Lemma translate_ok p d :
  (0 <= Z.of_nat (line p) + d)%Z ->
  Pos.translate p d 0 = Ret (mkPosition (Z.to_nat (Z.of_nat (line p) + d)) (character p)).
Proof.
  intros H. unfold Pos.translate, Pos.create.
  destruct (Z.ltb_spec (Z.of_nat (line p) + d) 0); [lia|].
  destruct (Z.ltb_spec (Z.of_nat (character p) + 0) 0); [lia|].
  rewrite Z.add_0_r, Nat2Z.id. reflexivity.
Qed.

(** ** Edits outside a fragment *)

Section Tracking.

Variable document : TextDocument.
Variable key : string.

(** C3 (as amended). An edit that starts strictly after the end of a
    fragment leaves everything as it is: the fragment's range, content
    and time stamp, the collection, and the set of fragments to
    recompile. *)
Theorem applyChange_after_noop (p : ref) (pic : IFileTikzPicture) (toUpdate : list ref)
    (change : Change.t) (s : State) :
  store s !! p = Some pic ->
  Pos.isBefore (end_ (range pic)) (start (Change.range change)) = true ->
  applyChange document key p toUpdate change s = (Ret toUpdate, s).
Proof.
  intros Hp Hafter. unfold applyChange, bind, getPicture.
  rewrite Hp, Hafter. reflexivity.
Qed.

Lemma create_ordered a b :
  Pos.isAfter a b = false -> Rng.create a b = mkRange a b.
Proof.
  intros H. unfold Rng.create. destruct (Pos.isBefore a b) eqn:Hb; [reflexivity|].
  rewrite isAfter_isBefore in H.
  apply isBefore_false in H. apply isBefore_false in Hb.
  assert (a = b) as ->; [|reflexivity].
  destruct a as [la ca], b as [lb cb]. simpl in *. f_equal; lia.
Qed.

(** The loop body for an edit whose replaced range ends strictly before
    the start of a fragment: when the pass comes to the fragment, both of
    its ends move by [lineDelta] lines (the moved lines are never
    negative) and nothing else changes: same columns, content, temporary
    file and time stamp. *)
Lemma applyChange_before_translates (p : ref) (pic : IFileTikzPicture)
    (toUpdate : list ref) (change : Change.t) (s : State) :
  store s !! p = Some pic ->
  Rng.ordered (range pic) ->
  Rng.ordered (Change.range change) ->
  Pos.isBefore (end_ (Change.range change)) (start (range pic)) = true ->
  let d := lineDeltaOf change in
  (0 <= Z.of_nat (line (start (range pic))) + d)%Z /\
  applyChange document key p toUpdate change s =
    (Ret toUpdate,
     setStore (<[p := mkPicture
                  (mkRange
                     (mkPosition (Z.to_nat (Z.of_nat (line (start (range pic))) + d))
                                 (character (start (range pic))))
                     (mkPosition (Z.to_nat (Z.of_nat (line (end_ (range pic))) + d))
                                 (character (end_ (range pic)))))
                  (content pic) (tempFile pic) (lastChange pic)]> (store s)) s).
Proof.
  intros Hp Hpic Hch Hbefore d.
  unfold Rng.ordered in Hpic, Hch. rewrite isAfter_isBefore in Hpic, Hch.
  apply isBefore_false in Hpic. apply isBefore_false in Hch.
  pose proof (proj1 (isBefore_spec _ _) Hbefore) as Hb.
  assert (0 <= Z.of_nat (line (start (range pic))) + d)%Z as Hs
    by (unfold d, lineDeltaOf; lia).
  assert (0 <= Z.of_nat (line (end_ (range pic))) + d)%Z as He by lia.
  split; [exact Hs|].
  assert (Pos.isBefore (end_ (range pic)) (start (Change.range change)) = false) as Hnot
    by (apply isBefore_false; lia).
  unfold applyChange, bind, getPicture, lift. rewrite Hp, Hnot.
  rewrite isAfter_isBefore, Hbefore.
  fold d. rewrite (translate_ok _ _ Hs), (translate_ok _ _ He).
  rewrite create_ordered; [reflexivity|].
  rewrite isAfter_isBefore. apply isBefore_false. simpl. lia.
Qed.

(** *** Re-anchoring *)

Lemma scanLines_miss re strip more first :
  noMarker document re strip first (first + more) ->
  scanLines document re strip more first = Ret None.
Proof.
  unfold noMarker.
  revert first. induction more as [|more IH]; intros first H; simpl.
  - destruct (H first) as (t & -> & ->); [lia | reflexivity].
  - destruct (H first) as (t & -> & ->); [lia|].
    apply IH. intros j Hj. apply H. lia.
Qed.

Lemma scanLines_hit (re : regex) (strip : bool) (more first k : nat) (t : string)
    (m : nat * nat) :
  (first <= k <= first + more)%nat ->
  (forall j, (first <= j < k)%nat ->
     exists tj, lineAt document j = Some tj
                /\ reMatch re (if strip then stripComments tj "%" else tj) = None) ->
  lineAt document k = Some t ->
  reMatch re (if strip then stripComments t "%" else t) = Some m ->
  scanLines document re strip more first = Ret (Some (k, m)).
Proof.
  revert first. induction more as [|more IH]; intros first Hk Hbefore Ht Hm; simpl.
  - assert (k = first) as -> by lia. rewrite Ht, Hm. reflexivity.
  - destruct (decide (k = first)) as [->|Hne].
    + rewrite Ht, Hm. reflexivity.
    + destruct (Hbefore first) as (tj & -> & ->); [lia|].
      apply IH; [lia | | exact Ht | exact Hm].
      intros j Hj. apply Hbefore. lia.
Qed.

Lemma startLocation_miss pic change :
  openingMiss document pic change -> startLocation document pic change = Ret None.
Proof.
  intros (Hle & Hown & Hscan). unfold startLocation.
  apply Nat.leb_le in Hle. rewrite Hle. unfold noMarker in Hown.
  destruct (Hown (line (start (range pic)))) as (own & -> & Hno); [lia|].
  unfold reSearch. simpl in Hno. rewrite Hno. simpl.
  rewrite scanLines_miss; [reflexivity|].
  intros j Hj. apply Hscan. lia.
Qed.

Lemma endLocation_miss pic change :
  closingMiss document pic change -> endLocation document pic change = Ret None.
Proof.
  intros (Hle & Hscan). unfold endLocation.
  apply Nat.leb_le in Hle. rewrite Hle.
  rewrite scanLines_miss; [reflexivity|].
  intros j Hj. apply Hscan. lia.
Qed.

Lemma processModification_run p pic change d s startLoc endLoc newEnd :
  store s !! p = Some pic ->
  startLocation document pic change = Ret startLoc ->
  endLocation document pic change = Ret endLoc ->
  newEndOf pic endLoc d = Ret newEnd ->
  processModificationToTikzPicture document p change d s
  = reanchored document p pic (default (start (range pic)) startLoc) newEnd s.
Proof.
  intros Hp Hs He Hn.
  unfold processModificationToTikzPicture, bind, getPicture, lift. rewrite Hp, Hs, He.
  unfold newEndOf in Hn. rewrite Hn. destruct startLoc; reflexivity.
Qed.

Lemma reanchored_anchored p pic a b s :
  reanchored document p pic a b s
  = anchored document p pic (if Pos.isAfter a b then mkRange b a else mkRange a b) s.
Proof.
  unfold reanchored, anchored.
  destruct (Pos.isAfter a b) eqn:Hab.
  - unfold Rng.create. rewrite isAfter_isBefore in Hab.
    assert (Pos.isBefore a b = false) as ->; [|reflexivity].
    apply isBefore_false. apply isBefore_spec in Hab. lia.
  - rewrite (create_ordered a b Hab). reflexivity.
Qed.

Lemma scanLines_throw (re : regex) (strip : bool) (more first k : nat) :
  (first <= k <= first + more)%nat ->
  (forall j, (first <= j < k)%nat ->
     exists tj, lineAt document j = Some tj
                /\ reMatch re (if strip then stripComments tj "%" else tj) = None) ->
  lineAt document k = None ->
  scanLines document re strip more first = Throw "Illegal value for `line`".
Proof.
  revert first. induction more as [|more IH]; intros first Hk Hbefore Hnone; simpl.
  - assert (k = first) as -> by lia. rewrite Hnone. reflexivity.
  - destruct (decide (k = first)) as [->|Hne].
    + rewrite Hnone. reflexivity.
    + destruct (Hbefore first) as (tj & -> & ->); [lia|].
      apply IH; [lia | | exact Hnone].
      intros j Hj. apply Hbefore. lia.
Qed.

Lemma processModification_throw_start p pic change d s e :
  store s !! p = Some pic ->
  startLocation document pic change = Throw e ->
  processModificationToTikzPicture document p change d s = (Throw e, s).
Proof.
  intros Hp Hs. unfold processModificationToTikzPicture, bind, getPicture, lift.
  rewrite Hp, Hs. reflexivity.
Qed.

Lemma processModification_throw_end p pic change d s startLoc e :
  store s !! p = Some pic ->
  startLocation document pic change = Ret startLoc ->
  endLocation document pic change = Throw e ->
  processModificationToTikzPicture document p change d s = (Throw e, s).
Proof.
  intros Hp Hs He. unfold processModificationToTikzPicture, bind, getPicture, lift.
  rewrite Hp, Hs, He. reflexivity.
Qed.

Lemma processModification_throw_translate p pic change d s startLoc endLoc e :
  store s !! p = Some pic ->
  startLocation document pic change = Ret startLoc ->
  endLocation document pic change = Ret endLoc ->
  newEndOf pic endLoc d = Throw e ->
  processModificationToTikzPicture document p change d s = (Throw e, s).
Proof.
  intros Hp Hs He Hn. unfold processModificationToTikzPicture, bind, getPicture, lift.
  rewrite Hp, Hs, He. unfold newEndOf in Hn. rewrite Hn. reflexivity.
Qed.

(** C6 (as amended). When the edit starts on or above the fragment's
    first line, the fragment's own first line is looked at first, with
    its line comments stripped: if the opening marker is there, its
    position on that line is taken.  If it is not, the lines are searched
    from the first line of the edit downwards, to the line after the
    fragment's prior last line, each as it stands, and the position of the
    marker on the first line that carries one is taken.  The position
    taken is the new start of the fragment when it is not after the new
    end; when it is, the range constructor exchanges the two and the new
    end becomes the start. *)
Theorem reanchor_start_own_line_first (p : ref) (pic : IFileTikzPicture)
    (change : Change.t) (d : Z) (s : State) (own : string)
    (endLoc : option Position) (newEnd : Position) :
  store s !! p = Some pic ->
  (line (start (Change.range change)) <= line (start (range pic)))%nat ->
  lineAt document (line (start (range pic))) = Some own ->
  endLocation document pic change = Ret endLoc ->
  newEndOf pic endLoc d = Ret newEnd ->
  (forall index,
     reSearch startRegex (stripComments own "%") = Some index ->
     processModificationToTikzPicture document p change d s
     = anchored document p pic
         (if Pos.isAfter (mkPosition (line (start (range pic))) index) newEnd
          then mkRange newEnd (mkPosition (line (start (range pic))) index)
          else mkRange (mkPosition (line (start (range pic))) index) newEnd) s)
  /\ (reSearch startRegex (stripComments own "%") = None ->
      forall k t index len,
        (line (start (Change.range change)) <= k
         <= Nat.max (line (start (Change.range change))) (S (line (end_ (range pic)))))%nat ->
        (forall j, (line (start (Change.range change)) <= j < k)%nat ->
           exists tj, lineAt document j = Some tj /\ reMatch startRegex tj = None) ->
        lineAt document k = Some t ->
        reMatch startRegex t = Some (index, len) ->
        processModificationToTikzPicture document p change d s
        = anchored document p pic
            (if Pos.isAfter (mkPosition k index) newEnd
             then mkRange newEnd (mkPosition k index)
             else mkRange (mkPosition k index) newEnd) s).
Proof.
  intros Hp Hle Hown He Hn. apply Nat.leb_le in Hle. split.
  - intros index Hidx. rewrite <- reanchored_anchored.
    apply (processModification_run p pic change d s (Some _) endLoc newEnd Hp); auto.
    unfold startLocation. rewrite Hle, Hown, Hidx.
    unfold Pos.translate, Pos.create.
    destruct (Z.ltb_spec (Z.of_nat (line (start (range pic))) + 0) 0); [lia|].
    destruct (Z.ltb_spec (Z.of_nat (character (start (range pic)))
                          + (Z.of_nat index - Z.of_nat (character (start (range pic))))) 0);
      [lia|].
    do 3 f_equal; lia.
  - intros Hnone k t index len Hk Hlines Ht Hm. rewrite <- reanchored_anchored.
    apply (processModification_run p pic change d s (Some _) endLoc newEnd Hp); auto.
    unfold startLocation. rewrite Hle, Hown, Hnone.
    rewrite (scanLines_hit startRegex false _ _ k t (index, len)); auto. lia.
Qed.

(** C7 (as amended). After a miss of the opening marker the previous
    start is handed on as it is: it is the new start of the fragment when
    it is not after the new end, and otherwise the range constructor
    exchanges the two.  After a miss of the closing marker the end handed
    on is the previous end moved by [lineDelta] lines.  The collections
    are never touched, so the fragment stays tracked.  A miss is not fatal
    when every line the search looks at exists: what the call then does is
    decided by the search for the other boundary and by the move of the
    end, and it throws exactly when one of them does.  A search that comes
    to a line the document does not have, before any marker, throws. *)
Theorem reanchor_miss_keeps_fragment (p : ref) (pic : IFileTikzPicture)
    (change : Change.t) (d : Z) (s : State) :
  store s !! p = Some pic ->
  (openingMiss document pic change ->
   match endLocation document pic change with
   | Throw e => processModificationToTikzPicture document p change d s = (Throw e, s)
   | Ret endLoc =>
       match newEndOf pic endLoc d with
       | Throw e => processModificationToTikzPicture document p change d s = (Throw e, s)
       | Ret newEnd =>
           processModificationToTikzPicture document p change d s
           = anchored document p pic
               (if Pos.isAfter (start (range pic)) newEnd
                then mkRange newEnd (start (range pic))
                else mkRange (start (range pic)) newEnd) s
       end
   end)
  /\ (closingMiss document pic change ->
      match startLocation document pic change with
      | Throw e => processModificationToTikzPicture document p change d s = (Throw e, s)
      | Ret startLoc =>
          if (Z.of_nat (line (end_ (range pic))) + d <? 0)%Z then
            processModificationToTikzPicture document p change d s
            = (Throw "illegal argument: line must be non-negative", s)
          else
            processModificationToTikzPicture document p change d s
            = anchored document p pic
                (if Pos.isAfter (default (start (range pic)) startLoc)
                      (mkPosition (Z.to_nat (Z.of_nat (line (end_ (range pic))) + d))
                                  (character (end_ (range pic))))
                 then mkRange (mkPosition (Z.to_nat (Z.of_nat (line (end_ (range pic))) + d))
                                          (character (end_ (range pic))))
                              (default (start (range pic)) startLoc)
                 else mkRange (default (start (range pic)) startLoc)
                              (mkPosition (Z.to_nat (Z.of_nat (line (end_ (range pic))) + d))
                                          (character (end_ (range pic))))) s
      end)
  /\ tikzCollections (snd (processModificationToTikzPicture document p change d s))
     = tikzCollections s
  /\ (forall k own,
        (line (start (Change.range change)) <= line (start (range pic)))%nat ->
        lineAt document (line (start (range pic))) = Some own ->
        reSearch startRegex (stripComments own "%") = None ->
        (line (start (Change.range change)) <= k
         <= Nat.max (line (start (Change.range change))) (S (line (end_ (range pic)))))%nat ->
        (forall j, (line (start (Change.range change)) <= j < k)%nat ->
           exists tj, lineAt document j = Some tj /\ reMatch startRegex tj = None) ->
        lineAt document k = None ->
        processModificationToTikzPicture document p change d s
        = (Throw "Illegal value for `line`", s))
  /\ (forall k,
        (line (end_ (range pic)) <= line (end_ (Change.range change)))%nat ->
        (line (start (range pic)) <= k
         <= Nat.max (line (start (range pic))) (S (line (end_ (Change.range change)))))%nat ->
        (forall j, (line (start (range pic)) <= j < k)%nat ->
           exists tj, lineAt document j = Some tj
                      /\ reMatch endRegex (stripComments tj "%") = None) ->
        lineAt document k = None ->
        exists e, processModificationToTikzPicture document p change d s = (Throw e, s)).
Proof.
  intros Hp. split; [|split; [|split; [|split]]].
  - intros Hmiss. pose proof (startLocation_miss pic change Hmiss) as Hs.
    destruct (endLocation document pic change) as [endLoc|e] eqn:He.
    + destruct (newEndOf pic endLoc d) as [newEnd|e] eqn:Hn.
      * rewrite <- reanchored_anchored.
        apply (processModification_run p pic change d s None endLoc newEnd Hp); auto.
      * eapply processModification_throw_translate; eauto.
    + eapply processModification_throw_end; eauto.
  - intros Hmiss. pose proof (endLocation_miss pic change Hmiss) as He.
    destruct (startLocation document pic change) as [startLoc|e] eqn:Hs.
    + destruct (Z.ltb_spec (Z.of_nat (line (end_ (range pic))) + d) 0) as [Hneg|Hd].
      * eapply processModification_throw_translate; eauto.
        unfold newEndOf, Pos.translate, Pos.create.
        apply Z.ltb_lt in Hneg. rewrite Hneg. reflexivity.
      * rewrite <- reanchored_anchored.
        apply (processModification_run p pic change d s startLoc None _ Hp); auto.
        unfold newEndOf. apply translate_ok. exact Hd.
    + eapply processModification_throw_start; eauto.
  - unfold processModificationToTikzPicture, bind, getPicture, lift, setPicture, modify.
    rewrite Hp.
    destruct (startLocation document pic change) as [sl|]; [|reflexivity].
    destruct (endLocation document pic change) as [el|]; [|reflexivity].
    destruct (match el with Some l => Ret l | None => _ end); reflexivity.
  - intros k own Hle Hown Hnone Hk Hlines Hmissing.
    eapply processModification_throw_start; [exact Hp|].
    unfold startLocation. apply Nat.leb_le in Hle. rewrite Hle, Hown, Hnone.
    rewrite (scanLines_throw startRegex false _ _ k); auto. lia.
  - intros k Hle Hk Hlines Hmissing.
    assert (endLocation document pic change = Throw "Illegal value for `line`") as He.
    { unfold endLocation. apply Nat.leb_le in Hle. rewrite Hle.
      rewrite (scanLines_throw endRegex true _ _ k); auto. lia. }
    destruct (startLocation document pic change) as [startLoc|e] eqn:Hs.
    + eexists. eapply processModification_throw_end; eauto.
    + eexists. eapply processModification_throw_start; eauto.
Qed.

(** *** The loop over the live array *)

Lemma splice1_length l i : (length (splice1 l i) <= length l)%nat.
Proof.
  unfold splice1. generalize (Z.to_nat
    (if (i <? 0)%Z then Z.max (Z.of_nat (length l) + i) 0 else Z.min i (Z.of_nat (length l)))).
  intros n. revert n. induction l as [|x l IH]; intros [|n]; simpl; auto.
  specialize (IH n). simpl in IH. lia.
Qed.

Lemma picsLen_splice p s :
  (picsLen key (setCollections (alter (fun c =>
      Coll.setPictures (splice1 (Coll.tikzPictures c) (indexOf (Coll.tikzPictures c) p)) c)
      key (tikzCollections s)) s) <= picsLen key s)%nat.
Proof.
  unfold picsLen. simpl. rewrite lookup_alter_eq.
  destruct (tikzCollections s !! key) as [c|]; simpl; [apply splice1_length | lia].
Qed.

Lemma processModification_collections p change d s :
  tikzCollections (snd (processModificationToTikzPicture document p change d s))
  = tikzCollections s.
Proof.
  unfold processModificationToTikzPicture, bind, getPicture, lift, setPicture, modify.
  destruct (store s !! p) as [pic|]; [|reflexivity].
  destruct (startLocation document pic change) as [sl|]; [|reflexivity].
  destruct (endLocation document pic change) as [el|]; [|reflexivity].
  destruct (match el with Some l => Ret l | None => _ end); reflexivity.
Qed.

Lemma applyChange_picsLen p toUpdate change s :
  (picsLen key (snd (applyChange document key p toUpdate change s)) <= picsLen key s)%nat.
Proof.
  unfold applyChange, bind, getPicture.
  destruct (store s !! p) as [pic|] eqn:Hp; [|simpl; lia].
  destruct (Pos.isBefore _ _); [simpl; lia|].
  destruct (Pos.isAfter (start (range pic)) _).
  - unfold lift, setPicture, modify.
    destruct (Pos.translate (start (range pic)) _ _); [|simpl; lia].
    destruct (Pos.translate (end_ (range pic)) _ _); unfold picsLen; simpl; lia.
  - destruct (_ && _).
    + unfold updCollection, modify, cleanupTikzPicture, bind, getPicture, emit, modify.
      simpl. rewrite Hp. simpl. apply (picsLen_splice p s).
    + pose proof (processModification_collections p change (lineDeltaOf change) s) as H.
      destruct (processModificationToTikzPicture _ _ _ _ s) as [[[]|e] s1];
        simpl in *; unfold picsLen; rewrite H; lia.
Qed.

Lemma applyChanges_picsLen p changes toUpdate s :
  (picsLen key (snd (applyChanges document key p toUpdate changes s)) <= picsLen key s)%nat.
Proof.
  revert toUpdate s. induction changes as [|c changes IH]; intros toUpdate s; [simpl; lia|].
  simpl. unfold bind.
  pose proof (applyChange_picsLen p toUpdate c s) as H1.
  destruct (applyChange document key p toUpdate c s) as [[u|e] s1]; simpl in *; [|exact H1].
  specialize (IH u s1). lia.
Qed.

End Tracking.

Section Pass.

Variable E : Env.
Variable document : TextDocument.
Variable key : string.
Variable changes : list Change.t.

Lemma visitPicture_picsLen p toUpdate s :
  (picsLen key (snd (visitPicture E document key changes p toUpdate s)) <= picsLen key s)%nat.
Proof.
  unfold visitPicture, bind, getPicture.
  destruct (store s !! p) as [pic|] eqn:Hp; [|simpl; lia].
  destruct (viewerClosed E pic); [|apply applyChanges_picsLen].
  unfold updCollection, modify, cleanupTikzPicture, bind, getPicture, emit, modify.
  simpl. rewrite Hp. simpl. apply (picsLen_splice key p s).
Qed.

(** The loop over the pictures ends because the index runs past the end
    of the array, never because its bound is used up: any two bounds
    that cover the elements from [i] on give the same run. *)
Lemma forOfPictures_bound b1 b2 i toUpdate s :
  (picsLen key s - i <= b1)%nat ->
  (picsLen key s - i <= b2)%nat ->
  forOfPictures E document key changes b1 i toUpdate s
  = forOfPictures E document key changes b2 i toUpdate s.
Proof.
  revert b2 i toUpdate s. induction b1 as [|b1 IH]; intros b2 i toUpdate s H1 H2;
    destruct b2 as [|b2]; simpl; unfold bind, getCollection;
    unfold picsLen in H1, H2;
    destruct (tikzCollections s !! key) as [c|] eqn:Hc; try reflexivity;
    destruct (Coll.tikzPictures c !! i) as [p|] eqn:Hi; try reflexivity;
    try (apply lookup_lt_Some in Hi; lia).
  pose proof (visitPicture_picsLen p toUpdate s) as Hlen.
  destruct (visitPicture E document key changes p toUpdate s) as [[u|e] s1];
    [|reflexivity].
  simpl in Hlen. apply lookup_lt_Some in Hi.
  apply IH; unfold picsLen in Hlen |- *; rewrite Hc in Hlen; lia.
Qed.

Lemma alter_setLastChange_insert (m : gmap string Coll.t) (k : string) (c0 : Coll.t)
    (L t : Z) :
  m !! k = Some c0 ->
  alter (Coll.setLastChange t) k (<[k := Coll.setLastChange L c0]> m)
  = alter (Coll.setLastChange t) k m.
Proof.
  intros Hc. apply map_eq. intros k'. rewrite !lookup_alter.
  destruct (decide (k = k')) as [<-|Hne].
  - rewrite lookup_insert_eq, Hc. reflexivity.
  - rewrite lookup_insert_ne by exact Hne. reflexivity.
Qed.

(** Past the debounce test, the time of the session's previous activity
    plays no part in a pass: [lastChange] is overwritten before the
    timeout is compared, so sessions that differ in it alone run alike. *)
Lemma onFileChange_staleness_ignored (waitedDelay : bool) (s : State) (c0 : Coll.t) (L : Z) :
  tikzCollections s !! fsPath document = Some c0 ->
  delay E <> 0 ->
  (delay E <= clock E (ticks s) - Coll.lastChange c0)%Z ->
  (delay E <= clock E (ticks s) - L)%Z ->
  onFileChange E document changes waitedDelay
    (setCollections (<[fsPath document := Coll.setLastChange L c0]> (tikzCollections s)) s)
  = onFileChange E document changes waitedDelay s.
Proof.
  intros Hc Hd H1 H2. unfold onFileChange, bind, gets, now.
  cbn [tikzCollections setCollections fst snd].
  rewrite lookup_insert_eq, Hc.
  destruct (Z.eqb_spec (delay E) 0) as [|_]; [contradiction|].
  cbn [ticks setCollections Coll.lastChange Coll.setLastChange].
  rewrite (proj2 (Z.ltb_ge _ _) H1), (proj2 (Z.ltb_ge _ _) H2).
  unfold updCollection, modify.
  cbn [tikzCollections setCollections setTicks ticks store nextRef initalised trace].
  rewrite (alter_setLastChange_insert _ _ _ _ _ Hc).
  reflexivity.
Qed.

End Pass.

(** ** The fragment cache *)

Section FragmentCache.

Variable E : Env.



Lemma findEntry_total pics r s :
  allocated s pics -> exists o, findEntry pics r s = (Ret o, s).
Proof.
  induction 1 as [|q pics [pic Hq] _ IH]; [exists None; reflexivity|].
  simpl. unfold bind, getPicture. rewrite Hq.
  destruct (Rng.isEqual (range pic) r); [exists (Some q); reflexivity | exact IH].
Qed.

Lemma findEntry_some pics r s q :
  findEntry pics r s = (Ret (Some q), s) ->
  q ∈ pics /\ exists pic, store s !! q = Some pic /\ Rng.isEqual (range pic) r = true.
Proof.
  induction pics as [|q' pics IH]; [discriminate|].
  simpl. unfold bind, getPicture. destruct (store s !! q') as [pic|] eqn:Hq; [|discriminate].
  destruct (Rng.isEqual (range pic) r) eqn:Hr.
  - intros [= <-]. split; [left | eauto].
  - intros H. destruct (IH H) as [Hin Hpic]. split; [right; exact Hin | exact Hpic].
Qed.

Lemma findEntry_none_elem pics r s q pic :
  findEntry pics r s = (Ret None, s) ->
  q ∈ pics -> store s !! q = Some pic -> Rng.isEqual (range pic) r = false.
Proof.
  induction pics as [|q' pics IH]; [intros _ Hin; inversion Hin|].
  simpl. unfold bind, getPicture. destruct (store s !! q') as [pic'|] eqn:Hq; [|discriminate].
  destruct (Rng.isEqual (range pic') r) eqn:Hr; [discriminate|].
  intros H Hin Hpic. apply elem_of_cons in Hin as [->|Hin]; [congruence | eauto].
Qed.


Lemma getTikzEntry_resolved key r content s c p :
  tikzCollections s !! key = Some c ->
  findEntry (Coll.tikzPictures c) r s = (Ret (Some p), s) ->
  getTikzEntry E key r content s = (Ret p, s).
Proof.
  intros Hc Hf. unfold getTikzEntry, bind, getCollection. rewrite Hc, Hf. reflexivity.
Qed.

(** C10. A request for the range of a fragment that is already tracked
    changes nothing at all: the collection, every stored fragment
    (content, range, temporary file, time stamp), the allocator and the
    clock are as before, and the fragment returned is a tracked one with
    that range; the content passed in is not used. *)
Theorem getTikzEntry_existing_unchanged (key : string) (r : Range) (content : string)
    (s : State) (c : Coll.t) (p : ref) (pic : IFileTikzPicture) :
  tikzCollections s !! key = Some c ->
  allocated s (Coll.tikzPictures c) ->
  p ∈ Coll.tikzPictures c ->
  store s !! p = Some pic ->
  Rng.isEqual (range pic) r = true ->
  exists q picq,
    getTikzEntry E key r content s = (Ret q, s)
    /\ q ∈ Coll.tikzPictures c
    /\ store s !! q = Some picq
    /\ Rng.isEqual (range picq) r = true.
Proof.
  intros Hc Hall Hin Hp Hr.
  destruct (findEntry_total _ r _ Hall) as [[q|] Hf].
  - destruct (findEntry_some _ _ _ _ Hf) as [Hq [picq [Hpq Hrq]]].
    exists q, picq. split; [|auto].
    eapply getTikzEntry_resolved; eauto.
  - pose proof (findEntry_none_elem _ _ _ _ _ Hf Hin Hp). congruence.
Qed.


Lemma sameFragments_refl key s : sameFragments key s s.
Proof. repeat split. Qed.

Lemma sameFragments_trans key s1 s2 s3 :
  sameFragments key s1 s2 -> sameFragments key s2 s3 -> sameFragments key s1 s3.
Proof. intros (?&?&?) (?&?&?). repeat split; congruence. Qed.

Lemma emit_sameFragments key e s : sameFragments key s (snd (emit e s)).
Proof. repeat split. Qed.

Lemma updateTikzPicture_sameFragments key p s :
  sameFragments key s (snd (updateTikzPicture E p s)).
Proof.
  unfold updateTikzPicture, bind, getPicture.
  destruct (store s !! p) as [pic|]; [|apply sameFragments_refl].
  simpl. destruct (viewerClosed E pic); repeat split.
Qed.

Lemma forEach_update_sameFragments key l s :
  sameFragments key s (snd (forEach (updateTikzPicture E) l s)).
Proof.
  revert s. induction l as [|p l IH]; intros s; [apply sameFragments_refl|].
  simpl. unfold bind.
  pose proof (updateTikzPicture_sameFragments key p s) as H1.
  destruct (updateTikzPicture E p s) as [[[]|e] s1]; simpl in *; [|exact H1].
  eapply sameFragments_trans; [exact H1 | apply IH].
Qed.

Lemma checkPreamble_sameFragments key mpl s :
  sameFragments key s (snd (checkPreamble E key mpl s)).
Proof.
  unfold checkPreamble, bind, getCollection.
  destruct (tikzCollections s !! key) as [c|] eqn:Hc; [|apply sameFragments_refl].
  destruct (negb _); [|apply sameFragments_refl].
  unfold updCollection, modify, precompilePreamble, bind, emit, modify. simpl.
  set (s1 := setTrace _ _).
  assert (sameFragments key s s1) as H1.
  { repeat split. simpl. rewrite lookup_alter_eq, Hc. reflexivity. }
  destruct (pdftex E _ _); simpl; [|exact H1].
  rewrite lookup_alter_eq, Hc. simpl.
  match goal with |- context [forEach ?f ?l ?st] =>
    pose proof (forEach_update_sameFragments key l st) as H2;
    destruct (forEach f l st) as [[[]|e] s2] end; simpl in *;
    eapply sameFragments_trans; eauto.
Qed.





End FragmentCache.

(** ** The preamble cache *)

Section PreambleCache.

Variable E : Env.

Lemma recompilations_app t1 t2 :
  recompilations (t1 ++ t2) = (recompilations t1 + recompilations t2)%nat.
Proof.
  induction t1 as [|e t1 IH]; [reflexivity|].
  destruct e; simpl; rewrite IH; reflexivity.
Qed.

Lemma recompilations_updateEventsOf h pics :
  Forall (fun q => is_Some (h !! q)) pics ->
  recompilations (updateEventsOf E h pics) = length pics.
Proof.
  induction 1 as [|q pics [pic Hq] _ IH]; [reflexivity|].
  unfold updateEventsOf in *. simpl. rewrite Hq. simpl.
  destruct (viewerClosed E pic); simpl; rewrite IH; reflexivity.
Qed.

Lemma updateTikzPicture_run p pic s :
  store s !! p = Some pic ->
  updateTikzPicture E p s = (Ret tt, setTrace (trace s ++ updateEvents E pic) s).
Proof.
  intros Hp. unfold updateTikzPicture, bind, getPicture. rewrite Hp.
  unfold updateEvents, emit, modify. simpl.
  destruct (viewerClosed E pic); unfold setTrace; simpl;
    rewrite <- app_assoc; reflexivity.
Qed.

Lemma forEach_update_run pics s :
  allocated s pics ->
  forEach (updateTikzPicture E) pics s
  = (Ret tt, setTrace (trace s ++ updateEventsOf E (store s) pics) s).
Proof.
  revert s. induction pics as [|p pics IH]; intros s Hall.
  - simpl. unfold ret, setTrace. rewrite app_nil_r. destruct s; reflexivity.
  - inversion Hall as [|? ? [pic Hp] Hall']; subst.
    simpl. unfold bind. rewrite (updateTikzPicture_run p pic s Hp).
    rewrite IH by exact Hall'.
    unfold updateEventsOf. simpl. rewrite Hp.
    unfold setTrace. simpl. rewrite <- app_assoc. reflexivity.
Qed.

(** C1 (as amended). [checkPreamble] answers [stable] exactly when the
    generated preamble is the stored one, and then changes nothing.
    Otherwise it stores the candidate and writes and precompiles the
    preamble file; when that process ends by exiting, every tracked
    fragment is recompiled exactly once, in order, and the answer is
    [updated]. *)
Theorem checkPreamble_stable_or_updated (key : string) (maxParsedLine : option nat)
    (s : State) (c : Coll.t) :
  tikzCollections s !! key = Some c ->
  allocated s (Coll.tikzPictures c) ->
  let candidate := generatePreamble E (Coll.texFileLocation c) maxParsedLine in
  let file := pathJoin (Coll.tempDir c) "preamble.tex" in
  (fst (checkPreamble E key maxParsedLine s) = Ret stable <-> candidate = Coll.preamble c)
  /\ (candidate = Coll.preamble c -> checkPreamble E key maxParsedLine s = (Ret stable, s))
  /\ (candidate <> Coll.preamble c ->
      forall code, pdftex E file candidate = ProcExit code ->
      exists s',
        checkPreamble E key maxParsedLine s = (Ret updated, s')
        /\ tikzCollections s' = <[key := Coll.setPreamble candidate c]> (tikzCollections s)
        /\ store s' = store s
        /\ trace s' = (trace s ++ EvPrecompile file (preambleFileText candidate)
                         :: updateEventsOf E (store s) (Coll.tikzPictures c))%list
        /\ recompilations (trace s')
           = (recompilations (trace s) + length (Coll.tikzPictures c))%nat).
Proof.
  intros Hc Hall candidate file.
  assert (candidate = Coll.preamble c -> checkPreamble E key maxParsedLine s = (Ret stable, s))
    as Hstable.
  { intros Heq. unfold checkPreamble, bind, getCollection. rewrite Hc.
    fold candidate. rewrite Heq, String.eqb_refl. reflexivity. }
  assert (candidate <> Coll.preamble c ->
          exists o s1, checkPreamble E key maxParsedLine s = (o, s1)
            /\ o <> Ret stable
            /\ (forall code, pdftex E file candidate = ProcExit code ->
                o = Ret updated
                /\ tikzCollections s1 = <[key := Coll.setPreamble candidate c]> (tikzCollections s)
                /\ store s1 = store s
                /\ trace s1 = (trace s ++ EvPrecompile file (preambleFileText candidate)
                                :: updateEventsOf E (store s) (Coll.tikzPictures c))%list))
    as Hchanged.
  { intros Hne. unfold checkPreamble, bind, getCollection. rewrite Hc.
    fold candidate.
    assert (String.eqb (Coll.preamble c) candidate = false) as ->
      by (apply String.eqb_neq; congruence).
    simpl. unfold precompilePreamble, bind, updCollection, emit, modify. simpl.
    fold file. destruct (pdftex E file candidate) as [code|err] eqn:Hpdf.
    - simpl. rewrite lookup_alter_eq, Hc. simpl.
      rewrite forEach_update_run by exact Hall. simpl.
      eexists _, _. split; [reflexivity|]. split; [discriminate|].
      intros code' _. split; [reflexivity|]. simpl.
      split; [|split; [reflexivity|]].
      + apply map_eq. intros k. rewrite lookup_alter, lookup_insert.
        destruct (decide (key = k)) as [<-|]; [rewrite Hc|]; reflexivity.
      + rewrite <- app_assoc. reflexivity.
    - simpl. eexists _, _. split; [reflexivity|]. split; [discriminate|].
      intros code' [=]. }
  split; [split|split; [exact Hstable|]].
  - intros Hres. destruct (String.eqb_spec candidate (Coll.preamble c)) as [|Hne];
      [assumption|].
    destruct (Hchanged Hne) as (o & s1 & Hrun & Ho & _). rewrite Hrun in Hres.
    simpl in Hres. contradiction.
  - intros Heq. rewrite (Hstable Heq). reflexivity.
  - intros Hne code Hpdf.
    destruct (Hchanged Hne) as (o & s1 & Hrun & _ & Hok).
    destruct (Hok code Hpdf) as (-> & Hcoll & Hst & Htr).
    exists s1. repeat split; try assumption.
    rewrite Htr, recompilations_app. simpl.
    rewrite recompilations_updateEventsOf by exact Hall. reflexivity.
Qed.

(** C8 (as amended). When the preamble changed and the [pdftex] process
    emits [error], [checkPreamble] rejects with that error, so does the
    refresh half of [view] that awaits it, and no fragment is
    recompiled: the trace gains the precompile attempt only. *)
Theorem checkPreamble_process_error (key : string) (maxParsedLine : option nat)
    (s : State) (c : Coll.t) (err : string) :
  tikzCollections s !! key = Some c ->
  generatePreamble E (Coll.texFileLocation c) maxParsedLine <> Coll.preamble c ->
  pdftex E (pathJoin (Coll.tempDir c) "preamble.tex") (generatePreamble E (Coll.texFileLocation c) maxParsedLine)
    = ProcError err ->
  exists s',
    checkPreamble E key maxParsedLine s = (Throw err, s')
    /\ trace s' = (trace s ++ [EvPrecompile (pathJoin (Coll.tempDir c) "preamble.tex")
                                (preambleFileText (generatePreamble E (Coll.texFileLocation c) maxParsedLine))])%list
    /\ recompilations (trace s') = recompilations (trace s)
    /\ forall p r, maxParsedLine = Some (line (start r)) ->
                   viewRefresh E key p r s = (Throw err, s').
Proof.
  intros Hc Hne Hpdf.
  assert (checkPreamble E key maxParsedLine s
          = (Throw err,
             setTrace (trace s ++ [EvPrecompile (pathJoin (Coll.tempDir c) "preamble.tex")
                        (preambleFileText (generatePreamble E (Coll.texFileLocation c) maxParsedLine))])
               (setCollections (alter (Coll.setPreamble (generatePreamble E (Coll.texFileLocation c) maxParsedLine))
                                  key (tikzCollections s)) s))) as Hrun.
  { unfold checkPreamble, bind, getCollection. rewrite Hc.
    assert (String.eqb (Coll.preamble c) (generatePreamble E (Coll.texFileLocation c) maxParsedLine) = false) as ->
      by (apply String.eqb_neq; congruence).
    simpl. unfold precompilePreamble, bind, updCollection, emit, modify. simpl.
    rewrite Hpdf. reflexivity. }
  eexists. split; [exact Hrun|]. simpl. split; [reflexivity|]. split.
  - rewrite recompilations_app. simpl. lia.
  - intros p r ->. unfold viewRefresh, bind. rewrite Hrun. reflexivity.
Qed.

End PreambleCache.

(** ** Concrete runs *)

Section Runs.

Import Scenario.

Lemma two_allocated : allocated two [0%nat; 1%nat].
Proof. repeat constructor; eexists; reflexivity. Defined.

(** C1, the claim as it stands fails: the preamble changed, the [pdftex]
    process could not be started, and the refresh neither answers
    [updated] nor recompiles any of the two tracked fragments. *)
Lemma checkPreamble_changed_without_update :
  let E := env [pdfUri fileA; pdfUri fileB] "P2" (ProcError "spawn pdftex ENOENT") in
  generatePreamble E path None <> "P"
  /\ fst (checkPreamble E path None two) = Throw "spawn pdftex ENOENT"
  /\ recompilations (trace (snd (checkPreamble E path None two))) = 0%nat
  /\ picsOf (snd (checkPreamble E path None two)) = Some [0%nat; 1%nat].
Proof. vm_compute. repeat split; discriminate. Qed.

Lemma checkPreamble_stable_or_updated_witness :
  let E := env [pdfUri fileA; pdfUri fileB] "P2" (ProcExit 0) in
  checkPreamble twoOpen path None two = (Ret stable, two)
  /\ exists s',
       checkPreamble E path None two = (Ret updated, s')
       /\ recompilations (trace s') = 2%nat.
Proof.
  split.
  - apply (checkPreamble_stable_or_updated twoOpen path None two
             (Coll.mk path dir [0%nat; 1%nat] "P" 0) eq_refl two_allocated).
    reflexivity.
  - destruct (checkPreamble_stable_or_updated
                (env [pdfUri fileA; pdfUri fileB] "P2" (ProcExit 0)) path None two
                (Coll.mk path dir [0%nat; 1%nat] "P" 0) eq_refl two_allocated)
      as (_ & _ & Hupd).
    destruct (Hupd ltac:(discriminate) 0 eq_refl) as (s' & Hrun & _ & _ & _ & Hn).
    exists s'. split; [exact Hrun | exact Hn].
Defined.

(** C8, the claim as it stands fails: [pdftex] ends with status 1, and
    the refresh answers [updated] and recompiles both fragments. *)
Lemma checkPreamble_failed_exit_goes_on :
  let E := env [pdfUri fileA; pdfUri fileB] "P2" (ProcExit 1) in
  precompileFailed (pdftex E (pathJoin dir "preamble.tex") "P2")
  /\ generatePreamble E path None <> "P"
  /\ fst (checkPreamble E path None two) = Ret updated
  /\ recompilations (trace (snd (checkPreamble E path None two))) = 2%nat.
Proof. vm_compute. repeat split; discriminate. Qed.

Lemma checkPreamble_process_error_witness :
  let E := env [pdfUri fileA; pdfUri fileB] "P2" (ProcError "spawn pdftex ENOENT") in
  exists s',
    checkPreamble E path None two = (Throw "spawn pdftex ENOENT", s')
    /\ recompilations (trace s') = 0%nat.
Proof.
  destruct (checkPreamble_process_error
              (env [pdfUri fileA; pdfUri fileB] "P2" (ProcError "spawn pdftex ENOENT"))
              path None two (Coll.mk path dir [0%nat; 1%nat] "P" 0) "spawn pdftex ENOENT"
              eq_refl ltac:(discriminate) eq_refl)
    as (s' & Hrun & _ & Hn & _).
  exists s'. split; [exact Hrun | exact Hn].
Defined.

(** C3, the claim as it stands fails for an edit that begins exactly at
    the end of a fragment: [Enter] typed right after a one-line picture
    removes the picture from tracking and releases its file, and a
    character typed right after a picture that holds a diagram moves the
    picture's end to the end of the diagram. *)
Lemma edit_at_fragment_end_not_noop :
  (start (Change.range enterAtEnd) = end_ (range picLine)
   /\ picsOf (snd (applyChange (Lines.document path oneLine) path 0%nat [] enterAtEnd
                     (one picLine))) = Some []
   /\ trace (snd (applyChange (Lines.document path oneLine) path 0%nat [] enterAtEnd
                    (one picLine))) = [EvCleanup fileA])
  /\ (start (Change.range typeAfter) = end_ (range picNested)
      /\ rangeOf (one picNested) 0%nat = Some (rng 0 0 2 17)
      /\ rangeOf (snd (applyChange (Lines.document path nested) path 0%nat [] typeAfter
                         (one picNested))) 0%nat = Some (rng 0 0 1 36)
      /\ fst (applyChange (Lines.document path nested) path 0%nat [] typeAfter
                (one picNested)) = Ret [0%nat]).
Proof. vm_compute. repeat split. Qed.

Lemma applyChange_after_noop_witness :
  applyChange (Lines.document path twoPictures) path 0%nat [] typeAtEnd two = (Ret [], two).
Proof.
  exact (applyChange_after_noop (Lines.document path twoPictures) path 0%nat picA []
           typeAtEnd two eq_refl eq_refl).
Defined.

(** C4, failing input: neither of two consecutive pictures has a
    viewer; the pass removes the first and never looks at the second,
    which stays tracked with its file. *)
Theorem onFileChange_second_viewerless_kept :
  let E := env [] "P" (ProcExit 0) in
  let run := onFileChange E (Lines.document path twoPictures) [typeAtEnd] false two in
  viewerClosed E picA = true
  /\ viewerClosed E picB = true
  /\ fst run = Ret tt
  /\ picsOf (snd run) = Some [1%nat]
  /\ trace (snd run) = [EvCleanup fileA].
Proof. vm_compute. repeat split. Qed.

(** C5, failing input: the session was last active at time 0, the batch
    arrives at time 100000 and the timeout is 15000; the batch is not
    dropped: the edited picture is re-read and recompiled. *)
Theorem onFileChange_stale_batch_processed :
  let run := onFileChange twoOpen (Lines.document path twoPicturesEdited) [editInA]
               false two in
  (timeout twoOpen < clock twoOpen 0 - 0)%Z
  /\ fst run = Ret tt
  /\ content <$> (store (snd run) !! 0%nat)
     = Some (Lines.textOf twoPicturesEdited (rng 0 0 2 17))
  /\ recompilations (trace (snd run)) = 1%nat.
Proof. vm_compute. repeat split. Qed.

(** C2, failing input: two pictures are tracked, the first shown by no
    viewer and the second shown, and a line is typed above both.  The pass
    removes the first picture from the array it is looping over and so
    never comes to the second: it stays where it was, on lines 4 to 6,
    while its text is now on lines 5 to 7.  With both pictures shown the
    same edit moves the second one down by the line added. *)
Theorem onFileChange_skipped_fragment_not_translated :
  let document := Lines.document path twoPushedDown in
  let run := onFileChange onlyB document [typeLineAbove] false two in
  let control := onFileChange twoOpen document [typeLineAbove] false two in
  lineDeltaOf typeLineAbove = 1
  /\ Pos.isBefore (end_ (Change.range typeLineAbove)) (start (range picB)) = true
  /\ viewerClosed onlyB picA = true
  /\ viewerClosed onlyB picB = false
  /\ fst run = Ret tt
  /\ picsOf (snd run) = Some [1%nat]
  /\ rangeOf (snd run) 1%nat = Some (rng 4 0 6 17)
  /\ fst control = Ret tt
  /\ picsOf (snd control) = Some [0%nat; 1%nat]
  /\ rangeOf (snd control) 1%nat = Some (rng 5 0 7 17).
Proof. vm_compute. repeat split. Qed.

(** C6, the claim as it stands fails: text with a diagram is pasted over
    the two lines above a picture and the beginning of its first line.
    The search of the specification, forward from the edited line, would
    take the diagram's marker on line 0 as the new start; the code looks
    at the picture's own line first and keeps the start on line 2. *)
Lemma reanchor_start_not_from_edited_line :
  let document := Lines.document path diagramAbove in
  Pos.isAfter (start (Change.range pasteAbove)) (start (range picBelow)) = false
  /\ Pos.isAfter (end_ (Change.range pasteAbove)) (start (range picBelow)) = true
  /\ specNewStart diagramAbove picBelow pasteAbove = pos 0 0
  /\ startLocation document picBelow pasteAbove = Ret (Some (pos 2 0))
  /\ rangeOf (snd (applyChange document path 0%nat [] pasteAbove (one picBelow))) 0%nat
     = Some (rng 2 0 4 17).
Proof. vm_compute. repeat split. Qed.

(** C6, a position taken that does not become the start: the picture
    begins on the line on which the picture before it ends.  The opening
    marker is at column 18 of that line, the closing marker found first
    ends at column 17, and the range constructor makes column 17 the
    start. *)
Lemma reanchor_start_after_end_exchanged :
  let document := Lines.document path sharedLine in
  startLocation document picShared retypeShared = Ret (Some (pos 0 18))
  /\ endLocation document picShared retypeShared = Ret (Some (pos 0 17))
  /\ rangeOf (snd (applyChange document path 0%nat [] retypeShared (one picShared))) 0%nat
     = Some (rng 0 17 0 18).
Proof. vm_compute. repeat split. Qed.

Lemma reanchor_start_own_line_first_witness :
  processModificationToTikzPicture (Lines.document path diagramAbove) 0%nat pasteAbove 0
    (one picBelow)
  = anchored (Lines.document path diagramAbove) 0%nat picBelow (rng 2 0 4 17) (one picBelow)
  /\ processModificationToTikzPicture (Lines.document path pushedDown) 0%nat typeLineAbove 1
       (one picA)
     = anchored (Lines.document path pushedDown) 0%nat picA (rng 1 0 3 17) (one picA)
  /\ processModificationToTikzPicture (Lines.document path sharedLine) 0%nat retypeShared 0
       (one picShared)
     = anchored (Lines.document path sharedLine) 0%nat picShared (rng 0 17 0 18)
         (one picShared).
Proof.
  split; [|split].
  - exact (proj1 (reanchor_start_own_line_first (Lines.document path diagramAbove)
                    0%nat picBelow pasteAbove 0 (one picBelow) "\begin{tikzpicture}"
                    None (pos 4 17)
                    eq_refl ltac:(simpl; lia) eq_refl eq_refl eq_refl) 0%nat eq_refl).
  - refine (proj2 (reanchor_start_own_line_first (Lines.document path pushedDown)
                     0%nat picA typeLineAbove 1 (one picA) "intro"
                     None (pos 3 17)
                     eq_refl ltac:(simpl; lia) eq_refl eq_refl eq_refl)
              eq_refl 1%nat "\begin{tikzpicture}" 0%nat 19%nat _ _ eq_refl eq_refl).
    + simpl. lia.
    + intros j Hj. simpl in Hj. assert (j = 0%nat) as -> by lia.
      exists "intro". split; reflexivity.
  - exact (proj1 (reanchor_start_own_line_first (Lines.document path sharedLine)
                    0%nat picShared retypeShared 0 (one picShared)
                    "\end{tikzpicture} \begin{tikzpicture}"
                    (Some (pos 0 17)) (pos 0 17)
                    eq_refl ltac:(simpl; lia) eq_refl eq_refl eq_refl) 18%nat eq_refl).
Defined.

(** C7, the claim as it stands fails: the closing marker is replaced by
    two lines of text, the search for it finds nothing, and the end of
    the picture does not stay where it was but moves one line down. *)
Lemma closing_miss_moves_end :
  let document := Lines.document path endReplaced in
  lineDeltaOf replaceEnd = 1
  /\ endLocation document picA replaceEnd = Ret None
  /\ (line (end_ (range picA)) <= line (end_ (Change.range replaceEnd)))%nat
  /\ rangeOf (one picA) 0%nat = Some (rng 0 0 2 17)
  /\ rangeOf (snd (applyChange document path 0%nat [] replaceEnd (one picA))) 0%nat
     = Some (rng 0 0 3 17).
Proof. vm_compute. repeat split; lia. Qed.

(** C7, a start that does not stay: the opening marker of the picture is
    gone, the line it stood on ends a diagram, and the search for the
    closing marker stops there.  The previous start, column 20, is handed
    on, and the range constructor makes it the end. *)
Lemma opening_miss_start_exchanged :
  let document := Lines.document path afterDiagram in
  startLocation document picAfterDiagram retypeAfterDiagram = Ret None
  /\ endLocation document picAfterDiagram retypeAfterDiagram = Ret (Some (pos 0 12))
  /\ rangeOf (snd (applyChange document path 0%nat [] retypeAfterDiagram
                     (one picAfterDiagram))) 0%nat
     = Some (rng 0 12 0 20).
Proof. vm_compute. repeat split. Qed.

(** C7, a miss that is fatal: the closing marker stood on the last line
    of the document and is replaced by text.  The search looks at the line
    after the last line of the edit, which the document does not have. *)
Lemma closing_miss_at_last_line_throws :
  let document := Lines.document path endReplacedLast in
  lineAt document 3 = None
  /\ applyChange document path 0%nat [] replaceEndLast (one picA)
     = (Throw "Illegal value for `line`", one picA).
Proof. vm_compute. repeat split. Qed.

Lemma reanchor_miss_keeps_fragment_witness :
  processModificationToTikzPicture (Lines.document path startReplaced) 0%nat replaceStart 0
    (one picA)
  = anchored (Lines.document path startReplaced) 0%nat picA (rng 0 0 2 17) (one picA)
  /\ processModificationToTikzPicture (Lines.document path endReplaced) 0%nat replaceEnd 1
       (one picA)
     = anchored (Lines.document path endReplaced) 0%nat picA (rng 0 0 3 17) (one picA)
  /\ processModificationToTikzPicture (Lines.document path afterDiagram) 0%nat
       retypeAfterDiagram 0 (one picAfterDiagram)
     = anchored (Lines.document path afterDiagram) 0%nat picAfterDiagram (rng 0 12 0 20)
         (one picAfterDiagram)
  /\ processModificationToTikzPicture (Lines.document path endReplacedLast) 0%nat
       replaceEndLast 0 (one picA)
     = (Throw "Illegal value for `line`", one picA).
Proof.
  split; [|split; [|split]].
  - refine (proj1 (reanchor_miss_keeps_fragment (Lines.document path startReplaced)
                     0%nat picA replaceStart 0 (one picA) eq_refl) _).
    split; [simpl; lia|]. split.
    + intros j Hj. simpl in Hj. assert (j = 0%nat) as -> by lia.
      exists "nothing". repeat split.
    + intros j Hj. simpl in Hj.
      assert (j = 0 \/ j = 1 \/ j = 2 \/ j = 3)%nat as [-> | [-> | [-> | ->]]] by lia;
        eexists; (split; [reflexivity|reflexivity]).
  - refine (proj1 (proj2 (reanchor_miss_keeps_fragment (Lines.document path endReplaced)
                            0%nat picA replaceEnd 1 (one picA) eq_refl)) _).
    split; [simpl; lia|].
    intros j Hj. simpl in Hj.
    assert (j = 0 \/ j = 1 \/ j = 2 \/ j = 3)%nat as [-> | [-> | [-> | ->]]] by lia;
      eexists; (split; [reflexivity|reflexivity]).
  - refine (proj1 (reanchor_miss_keeps_fragment (Lines.document path afterDiagram)
                     0%nat picAfterDiagram retypeAfterDiagram 0 (one picAfterDiagram)
                     eq_refl) _).
    split; [simpl; lia|]. split.
    + intros j Hj. simpl in Hj. assert (j = 0%nat) as -> by lia.
      eexists. split; reflexivity.
    + intros j Hj. simpl in Hj.
      assert (j = 0 \/ j = 1 \/ j = 2 \/ j = 3)%nat as [-> | [-> | [-> | ->]]] by lia;
        eexists; (split; [reflexivity|reflexivity]).
  - destruct (proj2 (proj2 (proj2 (proj2
               (reanchor_miss_keeps_fragment (Lines.document path endReplacedLast)
                  0%nat picA replaceEndLast 0 (one picA) eq_refl)))) 3%nat)
      as [e He].
    + simpl. lia.
    + simpl. lia.
    + intros j Hj. simpl in Hj.
      assert (j = 0 \/ j = 1 \/ j = 2)%nat as [-> | [-> | ->]] by lia;
        eexists; (split; [reflexivity|reflexivity]).
    + reflexivity.
    + rewrite He. vm_compute in He. injection He as <-. reflexivity.
Defined.


Lemma getTikzEntry_existing_unchanged_witness :
  exists q picq,
    getTikzEntry twoOpen path (rng 4 0 6 17) "new text" two = (Ret q, two)
    /\ q ∈ [0%nat; 1%nat]
    /\ store two !! q = Some picq
    /\ Rng.isEqual (range picq) (rng 4 0 6 17) = true.
Proof.
  apply (getTikzEntry_existing_unchanged twoOpen path (rng 4 0 6 17) "new text" two
           (Coll.mk path dir [0%nat; 1%nat] "P" 0) 1%nat picB eq_refl two_allocated).
  - right. left.
  - reflexivity.
  - reflexivity.
Defined.

End Runs.

(** * Further properties of the code *)

(** ** Removing a picture from the tracked array *)

Lemma indexOf_nonneg_iff (l : list ref) (p : ref) :
  (0 <= indexOf l p)%Z <-> p ∈ l.
Proof.
  induction l as [|q l IH]; simpl.
  - split; [lia | intros H; inversion H].
  - destruct (Nat.eqb_spec q p) as [->|Hne].
    + split; [intros _; left | lia].
    + destruct (Z.ltb_spec (indexOf l p) 0) as [Hlt|Hge].
      * split; [lia|]. intros H. apply elem_of_cons in H as [->|H]; [congruence|].
        apply IH in H. lia.
      * split; [intros _; right; apply IH; lia | lia].
Qed.

Lemma indexOf_absent (l : list ref) (p : ref) : p ∉ l -> indexOf l p = (-1)%Z.
Proof.
  induction l as [|q l IH]; simpl; [reflexivity|].
  intros H. apply not_elem_of_cons in H as [Hne Hl].
  destruct (Nat.eqb_spec q p) as [->|_]; [congruence|].
  rewrite (IH Hl). reflexivity.
Qed.

Lemma indexOf_bound (l : list ref) (p : ref) : (-1 <= indexOf l p < Z.of_nat (length l))%Z.
Proof.
  induction l as [|q l IH]; simpl; [lia|].
  destruct (Nat.eqb_spec q p); [lia|].
  destruct (Z.ltb_spec (indexOf l p) 0); lia.
Qed.

Lemma splice1_indexOf_present (l : list ref) (p : ref) :
  p ∈ l -> splice1 l (indexOf l p) = removeFirst p l.
Proof.
  intros Hin. unfold splice1.
  pose proof (indexOf_bound l p) as Hb.
  apply indexOf_nonneg_iff in Hin.
  destruct (Z.ltb_spec (indexOf l p) 0) as [|_]; [lia|].
  rewrite Z.min_l by lia. clear Hb.
  induction l as [|q l IH]; simpl in *; [lia|].
  destruct (Nat.eqb_spec q p) as [->|Hne]; [reflexivity|].
  destruct (Z.ltb_spec (indexOf l p) 0) as [|Hge]; [lia|].
  replace (Z.to_nat (indexOf l p + 1)) with (S (Z.to_nat (indexOf l p))) by lia.
  simpl. f_equal. apply IH. exact Hge.
Qed.

Lemma splice1_indexOf_absent (l : list ref) (p q : ref) :
  p ∉ (l ++ [q])%list -> splice1 (l ++ [q])%list (indexOf (l ++ [q])%list p) = l.
Proof.
  intros Hnot. rewrite (indexOf_absent _ _ Hnot). unfold splice1.
  rewrite length_app. simpl.
  replace (Z.to_nat _) with (length l)
    by (destruct (Z.ltb_spec (-1) 0); lia).
  clear Hnot. induction l as [|x l IH]; simpl; [reflexivity|].
  f_equal. exact IH.
Qed.

Section Removal.

Variable E : Env.
Variable document : TextDocument.
Variable key : string.

Lemma alter_pictures (m : gmap string Coll.t) (c : Coll.t) (f : list ref -> list ref) :
  m !! key = Some c ->
  alter (fun c => Coll.setPictures (f (Coll.tikzPictures c)) c) key m
  = <[key := Coll.setPictures (f (Coll.tikzPictures c)) c]> m.
Proof.
  intros Hc. apply map_eq. intros k. rewrite lookup_alter, lookup_insert.
  destruct (decide (key = k)) as [<-|]; [rewrite Hc|]; reflexivity.
Qed.

(** A tracked picture that no viewer shows is, when the pass visits it,
    taken out of the array (its first occurrence) and cleaned up; the
    edits of the batch are not applied to it and it is not queued. *)
Lemma visitPicture_viewer_closed (changes : list Change.t) (p : ref)
    (pic : IFileTikzPicture) (toUpdate : list ref) (s : State) (c : Coll.t) :
  tikzCollections s !! key = Some c ->
  store s !! p = Some pic ->
  p ∈ Coll.tikzPictures c ->
  viewerClosed E pic = true ->
  visitPicture E document key changes p toUpdate s
  = (Ret toUpdate, dropped key c (removeFirst p (Coll.tikzPictures c)) pic s).
Proof.
  intros Hc Hp Hin Hv. unfold visitPicture, bind, getPicture. rewrite Hp, Hv.
  unfold updCollection, cleanupTikzPicture, bind, getPicture, emit, modify. simpl.
  rewrite Hp. unfold dropped. simpl.
  rewrite (alter_pictures _ c (fun l => splice1 l (indexOf l p)) Hc).
  rewrite (splice1_indexOf_present _ _ Hin). reflexivity.
Qed.

(** X2. An edit that takes the branch [tikzpicture removed] drops the
    picture, if it is tracked, from the array and cleans it up; the
    picture object itself keeps its range and content, and nothing is
    queued for recompilation. *)
Theorem applyChange_removal (p : ref) (pic : IFileTikzPicture) (toUpdate : list ref)
    (change : Change.t) (s : State) (c : Coll.t) :
  tikzCollections s !! key = Some c ->
  store s !! p = Some pic ->
  p ∈ Coll.tikzPictures c ->
  removalCase pic change ->
  applyChange document key p toUpdate change s
  = (Ret toUpdate, dropped key c (removeFirst p (Coll.tikzPictures c)) pic s).
Proof.
  intros Hc Hp Hin (H1 & H2 & H3 & H4). unfold applyChange, bind, getPicture.
  rewrite Hp, H1, H2, H3. apply Z.ltb_lt in H4. rewrite H4. simpl.
  unfold updCollection, cleanupTikzPicture, bind, getPicture, emit, modify. simpl.
  rewrite Hp. unfold dropped. simpl.
  rewrite (alter_pictures _ c (fun l => splice1 l (indexOf l p)) Hc).
  rewrite (splice1_indexOf_present _ _ Hin). reflexivity.
Qed.

(** X3. When a further edit of the batch takes the branch [tikzpicture
    removed] for a picture that an earlier edit already took out of the
    array, [indexOf] answers [-1] and [splice(-1, 1)] takes out the last
    picture of the array instead; the clean-up of the removed picture is
    issued once more. *)
Theorem applyChange_removal_again_drops_last (p q : ref) (pic : IFileTikzPicture)
    (toUpdate : list ref) (change : Change.t) (s : State) (c : Coll.t) (rest : list ref) :
  tikzCollections s !! key = Some c ->
  store s !! p = Some pic ->
  Coll.tikzPictures c = (rest ++ [q])%list ->
  p ∉ Coll.tikzPictures c ->
  removalCase pic change ->
  applyChange document key p toUpdate change s = (Ret toUpdate, dropped key c rest pic s).
Proof.
  intros Hc Hp Hpics Hnot (H1 & H2 & H3 & H4). unfold applyChange, bind, getPicture.
  rewrite Hp, H1, H2, H3. apply Z.ltb_lt in H4. rewrite H4. simpl.
  unfold updCollection, cleanupTikzPicture, bind, getPicture, emit, modify. simpl.
  rewrite Hp. unfold dropped. simpl.
  rewrite (alter_pictures _ c (fun l => splice1 l (indexOf l p)) Hc).
  rewrite Hpics in Hnot |- *.
  rewrite (splice1_indexOf_absent _ _ _ Hnot). reflexivity.
Qed.

(** X4. The branch [tikzpicture removed] needs an edit that adds more
    lines than it replaces: an edit with [lineDelta <= 0], a plain
    deletion for one, never takes a picture out of the array and never
    cleans anything up, whatever it deletes. *)
Theorem applyChange_no_removal_without_added_lines (p : ref) (toUpdate : list ref)
    (change : Change.t) (s : State) :
  (lineDeltaOf change <= 0)%Z ->
  tikzCollections (snd (applyChange document key p toUpdate change s)) = tikzCollections s
  /\ trace (snd (applyChange document key p toUpdate change s)) = trace s.
Proof.
  intros Hd. unfold applyChange, bind, getPicture.
  destruct (store s !! p) as [pic|] eqn:Hp; [|split; reflexivity].
  destruct (Pos.isBefore _ _); [split; reflexivity|].
  destruct (Pos.isAfter (start (range pic)) _).
  - unfold lift, setPicture, modify.
    destruct (Pos.translate (start (range pic)) _ _); [|split; reflexivity].
    destruct (Pos.translate (end_ (range pic)) _ _); split; reflexivity.
  - destruct (Pos.isAfter (end_ (Change.range change)) (start (range pic))) eqn:Ha.
    + rewrite isAfter_isBefore in Ha. apply isBefore_spec in Ha.
      destruct (Z.ltb_spec (Z.of_nat (line (end_ (Change.range change))) - lineDeltaOf change)
                  (Z.of_nat (line (start (range pic))))) as [Hlt|_]; [lia|].
      simpl. unfold processModificationToTikzPicture, bind, getPicture, lift, setPicture, modify.
      rewrite Hp.
      destruct (startLocation document pic change) as [sl|]; [|split; reflexivity].
      destruct (endLocation document pic change) as [el|]; [|split; reflexivity].
      destruct (match el with Some l => Ret l | None => _ end); split; reflexivity.
    + simpl. unfold processModificationToTikzPicture, bind, getPicture, lift, setPicture, modify.
      rewrite Hp.
      destruct (startLocation document pic change) as [sl|]; [|split; reflexivity].
      destruct (endLocation document pic change) as [el|]; [|split; reflexivity].
      destruct (match el with Some l => Ret l | None => _ end); split; reflexivity.
Qed.

Lemma removeFirst_middle (K R : list ref) (p : ref) :
  p ∉ K -> removeFirst p (K ++ p :: R) = (K ++ R)%list.
Proof.
  intros Hnot. induction K as [|x K IH]; simpl.
  - rewrite Nat.eqb_refl. reflexivity.
  - apply not_elem_of_cons in Hnot as [Hne HK].
    destruct (Nat.eqb_spec x p) as [->|_]; [congruence|]. rewrite (IH HK). reflexivity.
Qed.

Lemma state_eta (s : State) :
  mkState (tikzCollections s) (store s) (nextRef s) (initalised s) (ticks s) (trace s) = s.
Proof. destruct s; reflexivity. Qed.

(** The loop over pictures that are all closed, at the index after [K]:
    with [visit] set it stands on the head of [R], otherwise one further. *)
Lemma forOfPictures_closed_run (changes : list Change.t) (R : list ref) :
  forall (visit : bool) (K : list ref) (bound : nat) (toUpdate : list ref) (s : State)
         (c : Coll.t),
    tikzCollections s !! key = Some c ->
    Coll.tikzPictures c = (K ++ R)%list ->
    NoDup (K ++ R) ->
    (forall q, q ∈ R -> exists pic, store s !! q = Some pic /\ viewerClosed E pic = true) ->
    (length R <= bound)%nat ->
    forOfPictures E document key changes bound
      (length K + (if visit then 0 else 1)) toUpdate s
    = (Ret toUpdate,
       mkState
         (<[key := Coll.setPictures (K ++ survivors visit R)%list c]> (tikzCollections s))
         (store s) (nextRef s) (initalised s) (ticks s)
         (trace s ++ cleanupsOf (store s) (visited visit R))).
Proof.
  induction R as [|p R IH]; intros visit K bound toUpdate s c Hc Hpics Hnd Hclosed Hb.
  - assert (forOfPictures E document key changes bound
              (length K + (if visit then 0 else 1)) toUpdate s = (Ret toUpdate, s)) as ->.
    { destruct bound; simpl; unfold bind, getCollection; rewrite Hc, Hpics;
        rewrite lookup_ge_None_2 by (rewrite length_app; simpl; lia); reflexivity. }
    rewrite app_nil_r in Hpics. destruct visit; simpl; rewrite !app_nil_r; rewrite <- Hpics;
      rewrite insert_id by (rewrite Hc; destruct c; reflexivity);
      rewrite state_eta; reflexivity.
  - destruct visit.
    + (* the head is visited and removed; the loop goes on one further *)
      destruct bound as [|bound]; [simpl in Hb; lia|].
      destruct (Hclosed p ltac:(left)) as (pic & Hp & Hv).
      assert (p ∉ K) as HpK.
      { apply NoDup_app in Hnd as (_ & Hdisj & _). intros Hin.
        apply (Hdisj p Hin). left. }
      cbn [forOfPictures]. unfold bind at 1. unfold getCollection. rewrite Hc, Hpics.
      rewrite Nat.add_0_r, list_lookup_middle by reflexivity.
      unfold bind at 1.
      rewrite (visitPicture_viewer_closed changes p pic toUpdate s c Hc Hp
                 ltac:(rewrite Hpics; apply elem_of_app; right; left) Hv).
      rewrite Hpics, (removeFirst_middle K R p HpK).
      replace (S (length K)) with (length K + 1)%nat by lia.
      rewrite (IH false K bound toUpdate _ (Coll.setPictures (K ++ R)%list c)).
      * simpl. rewrite insert_insert_eq. unfold cleanupsOf. simpl. rewrite Hp.
        rewrite <- app_assoc. reflexivity.
      * simpl. apply lookup_insert_eq.
      * reflexivity.
      * apply NoDup_app in Hnd as (HK & Hdisj & HR). apply NoDup_app.
        split; [exact HK|]. split; [|apply NoDup_cons in HR; tauto].
        intros x Hx Hx'. apply (Hdisj x Hx). right. exact Hx'.
      * intros q Hq. simpl. apply Hclosed. right. exact Hq.
      * simpl in Hb. lia.
    + (* the head is stepped over *)
      replace (length K + 1)%nat with (length (K ++ [p]) + 0)%nat
        by (rewrite length_app; simpl; lia).
      rewrite (IH true (K ++ [p])%list bound toUpdate s c Hc).
      * simpl. rewrite <- !app_assoc. reflexivity.
      * rewrite Hpics, <- app_assoc. reflexivity.
      * rewrite <- app_assoc. exact Hnd.
      * intros q Hq. apply Hclosed. right. exact Hq.
      * simpl in Hb. lia.
Qed.

(** X1. A pass over pictures none of which is shown by a viewer removes
    every second one only: taking a picture out of the array while the
    loop runs over it makes the loop step over the next picture.  The
    pictures at positions 0, 2, 4, ... are removed and cleaned up, those
    at positions 1, 3, 5, ... stay tracked, and nothing is queued. *)
Theorem forOfPictures_none_shown (changes : list Change.t) (s : State) (c : Coll.t) :
  tikzCollections s !! key = Some c ->
  NoDup (Coll.tikzPictures c) ->
  (forall q, q ∈ Coll.tikzPictures c ->
             exists pic, store s !! q = Some pic /\ viewerClosed E pic = true) ->
  forOfPictures E document key changes (length (Coll.tikzPictures c)) 0 [] s
  = (Ret [],
     mkState
       (<[key := Coll.setPictures (survivors true (Coll.tikzPictures c)) c]>
          (tikzCollections s))
       (store s) (nextRef s) (initalised s) (ticks s)
       (trace s ++ cleanupsOf (store s) (visited true (Coll.tikzPictures c)))).
Proof.
  intros Hc Hnd Hclosed.
  exact (forOfPictures_closed_run changes (Coll.tikzPictures c) true [] _ [] s c Hc eq_refl
           Hnd Hclosed (le_n _)).
Qed.

End Removal.

(** ** What a pass leaves alone *)

Section Frame.

Variable E : Env.
Variable key : string.

Lemma passFrame_refl s : passFrame key s s.
Proof.
  repeat split; auto. destruct (tikzCollections s !! key); auto.
Qed.

Lemma passFrame_trans s1 s2 s3 :
  passFrame key s1 s2 -> passFrame key s2 s3 -> passFrame key s1 s3.
Proof.
  intros (A1 & A2 & A3 & A4 & A5 & A6) (B1 & B2 & B3 & B4 & B5 & B6).
  split; [|split; [|split; [|split; [|split]]]].
  - intros q. rewrite B1. apply A1.
  - intros q. rewrite B2. apply A2.
  - intros k Hk. rewrite B3 by exact Hk. apply A3. exact Hk.
  - congruence.
  - congruence.
  - destruct (tikzCollections s1 !! key) as [c1|], (tikzCollections s2 !! key) as [c2|],
      (tikzCollections s3 !! key) as [c3|]; try contradiction; auto.
    destruct A6 as (? & ? & ?), B6 as (? & ? & ?).
    repeat split; try congruence. etrans; eauto.
Qed.

Lemma keeps_ret {A} (a : A) : keeps (passFrame key) (ret a).
Proof. intros s. apply passFrame_refl. Qed.

Lemma keeps_throw {A} (e : string) : keeps (passFrame key) (@throw A e).
Proof. intros s. apply passFrame_refl. Qed.

Lemma keeps_lift {A} (o : outcome A) : keeps (passFrame key) (lift o).
Proof. intros s. apply passFrame_refl. Qed.

Lemma keeps_gets {A} (f : State -> A) : keeps (passFrame key) (gets f).
Proof. intros s. apply passFrame_refl. Qed.

Lemma keeps_bind {A B} (m : M A) (k : A -> M B) :
  keeps (passFrame key) m -> (forall a, keeps (passFrame key) (k a)) ->
  keeps (passFrame key) (bind m k).
Proof.
  intros Hm Hk s. unfold bind. specialize (Hm s).
  destruct (m s) as [[a|e] s1]; simpl in *; [|exact Hm].
  eapply passFrame_trans; [exact Hm | apply Hk].
Qed.

Lemma keeps_withPending {A} (pending : M unit) (m : M A) :
  keeps (passFrame key) m -> keeps (passFrame key) pending ->
  keeps (passFrame key) (withPending pending m).
Proof.
  intros Hm Hp s. unfold withPending. specialize (Hm s).
  destruct (m s) as [o s1]; simpl in *.
  eapply passFrame_trans; [exact Hm | apply Hp].
Qed.

Lemma keeps_emit (e : Event) : keeps (passFrame key) (emit e).
Proof.
  intros s. repeat split; auto. simpl. destruct (tikzCollections s !! key); auto.
Qed.

Lemma keeps_now : keeps (passFrame key) (now E).
Proof.
  intros s. repeat split; auto. simpl. destruct (tikzCollections s !! key); auto.
Qed.

Lemma keeps_detached {A} (m : M A) : keeps (passFrame key) m -> keeps (passFrame key) (detached m).
Proof.
  intros Hm s. unfold detached. specialize (Hm s).
  destruct (m s) as [[a|e] s1]; simpl in *; [exact Hm|].
  eapply passFrame_trans; [exact Hm|].
  apply (keeps_emit (EvUnhandledRejection e) s1).
Qed.

Lemma keeps_getPicture p : keeps (passFrame key) (getPicture p).
Proof.
  intros s. unfold getPicture. destruct (store s !! p); apply passFrame_refl.
Qed.

Lemma keeps_getCollection k : keeps (passFrame key) (getCollection k).
Proof.
  intros s. unfold getCollection. destruct (tikzCollections s !! k); apply passFrame_refl.
Qed.

(** Writing back a picture with its temporary file and time stamp. *)
Lemma passFrame_setPicture p pic pic' s :
  store s !! p = Some pic ->
  tempFile pic' = tempFile pic ->
  lastChange pic' = lastChange pic ->
  passFrame key s (snd (setPicture p pic' s)).
Proof.
  intros Hp Ht Hl. unfold setPicture, modify. simpl.
  split; [|split; [|repeat split; auto]].
  - intros q. simpl. destruct (decide (p = q)) as [<-|Hne].
    + rewrite lookup_insert_eq, Hp. simpl. congruence.
    + rewrite lookup_insert_ne by exact Hne. reflexivity.
  - intros q. simpl. destruct (decide (p = q)) as [<-|Hne].
    + rewrite lookup_insert_eq, Hp. simpl. congruence.
    + rewrite lookup_insert_ne by exact Hne. reflexivity.
  - simpl. destruct (tikzCollections s !! key); auto.
Qed.

(** Changing the collection of the document without adding a picture. *)
Lemma passFrame_updCollection (f : Coll.t -> Coll.t) s :
  (forall c, sublist (Coll.tikzPictures (f c)) (Coll.tikzPictures c)
             /\ Coll.texFileLocation (f c) = Coll.texFileLocation c
             /\ Coll.tempDir (f c) = Coll.tempDir c) ->
  passFrame key s (snd (updCollection key f s)).
Proof.
  intros Hf. unfold updCollection, modify. simpl. repeat split; auto.
  - intros k Hk. simpl. rewrite lookup_alter_ne by congruence. reflexivity.
  - simpl. rewrite lookup_alter_eq.
    destruct (tikzCollections s !! key) as [c|]; simpl; [apply Hf | exact I].
Qed.

Lemma splice1_sublist l i : sublist (splice1 l i) l.
Proof. unfold splice1. apply sublist_delete. Qed.

Lemma keeps_dropPicture p :
  keeps (passFrame key) (updCollection key (fun c =>
    Coll.setPictures (splice1 (Coll.tikzPictures c) (indexOf (Coll.tikzPictures c) p)) c)).
Proof.
  intros s. apply passFrame_updCollection. intros c. simpl.
  split; [apply splice1_sublist | split; reflexivity].
Qed.

Lemma keeps_cleanupTikzPicture p : keeps (passFrame key) (cleanupTikzPicture p).
Proof.
  apply keeps_bind; [apply keeps_getPicture | intros pic; apply keeps_emit].
Qed.

Lemma keeps_updateTikzPicture p : keeps (passFrame key) (updateTikzPicture E p).
Proof.
  apply keeps_bind; [apply keeps_getPicture | intros pic].
  apply keeps_bind; [apply keeps_emit | intros _].
  destruct (viewerClosed E pic); apply keeps_emit.
Qed.

Lemma keeps_forEach {A} (f : A -> M unit) (l : list A) :
  (forall x, keeps (passFrame key) (f x)) -> keeps (passFrame key) (forEach f l).
Proof.
  intros Hf. induction l as [|x l IH]; [apply keeps_ret|].
  simpl. apply keeps_bind; [apply Hf | intros _; exact IH].
Qed.

Lemma keeps_processModification document p change d :
  keeps (passFrame key) (processModificationToTikzPicture document p change d).
Proof.
  intros s. unfold processModificationToTikzPicture, bind, getPicture, lift.
  destruct (store s !! p) as [pic|] eqn:Hp; [|apply passFrame_refl].
  destruct (startLocation document pic change) as [sl|]; [|apply passFrame_refl].
  destruct (endLocation document pic change) as [el|]; [|apply passFrame_refl].
  destruct (match el with Some l => Ret l | None => _ end); [|apply passFrame_refl].
  apply (passFrame_setPicture p pic _ s Hp); reflexivity.
Qed.

Lemma keeps_applyChange document p toUpdate change :
  keeps (passFrame key) (applyChange document key p toUpdate change).
Proof.
  intros s. unfold applyChange, bind, getPicture.
  destruct (store s !! p) as [pic|] eqn:Hp; [|apply passFrame_refl].
  destruct (Pos.isBefore _ _); [apply passFrame_refl|].
  destruct (Pos.isAfter (start (range pic)) _).
  - unfold lift.
    destruct (Pos.translate (start (range pic)) _ _); [|apply passFrame_refl].
    destruct (Pos.translate (end_ (range pic)) _ _); [|apply passFrame_refl].
    pose proof (passFrame_setPicture p pic (setRange (Rng.create a a0) pic) s Hp
                  eq_refl eq_refl) as H.
    destruct (setPicture p _ s) as [[[]|e] s1]; exact H.
  - destruct (_ && _).
    + apply (keeps_bind _ _ (keeps_dropPicture p)). intros _.
      apply keeps_bind; [apply keeps_cleanupTikzPicture | intros _; apply keeps_ret].
    + apply (keeps_bind _ _ (keeps_processModification document p change _)).
      intros _. apply keeps_ret.
Qed.

Lemma keeps_applyChanges document p changes toUpdate :
  keeps (passFrame key) (applyChanges document key p toUpdate changes).
Proof.
  revert toUpdate. induction changes as [|c changes IH]; intros toUpdate; [apply keeps_ret|].
  simpl. apply keeps_bind; [apply keeps_applyChange | intros u; apply IH].
Qed.

Lemma keeps_visitPicture document changes p toUpdate :
  keeps (passFrame key) (visitPicture E document key changes p toUpdate).
Proof.
  apply keeps_bind; [apply keeps_getPicture | intros pic].
  destruct (viewerClosed E pic); [|apply keeps_applyChanges].
  apply (keeps_bind _ _ (keeps_dropPicture p)). intros _.
  apply keeps_bind; [apply keeps_cleanupTikzPicture | intros _; apply keeps_ret].
Qed.

Lemma keeps_forOfPictures document changes bound i toUpdate :
  keeps (passFrame key) (forOfPictures E document key changes bound i toUpdate).
Proof.
  revert i toUpdate. induction bound as [|bound IH]; intros i toUpdate; simpl;
    (apply keeps_bind; [apply keeps_getCollection | intros c]);
    destruct (Coll.tikzPictures c !! i); try apply keeps_ret; try apply keeps_throw.
  apply keeps_bind; [apply keeps_visitPicture | intros u; apply IH].
Qed.

Lemma keeps_checkPreamble mpl : keeps (passFrame key) (checkPreamble E key mpl).
Proof.
  apply keeps_bind; [apply keeps_getCollection | intros c]. cbv beta zeta.
  destruct (negb _); [|apply keeps_ret].
  apply keeps_bind.
  { intros s. apply passFrame_updCollection. intros c'. simpl. auto. }
  intros _. apply keeps_bind.
  { unfold precompilePreamble. apply keeps_bind; [apply keeps_emit | intros _].
    destruct (pdftex E _ _); [apply keeps_ret | apply keeps_throw]. }
  intros _. apply keeps_bind; [apply keeps_getCollection | intros c'].
  apply keeps_bind; [|intros _; apply keeps_ret].
  apply keeps_forEach. apply keeps_updateTikzPicture.
Qed.

End Frame.

Section PassProperties.

Variable E : Env.
Variable document : TextDocument.
Variable changes : list Change.t.

Lemma keeps_onFileChange (waitedDelay : bool) :
  keeps (passFrame (fsPath document)) (onFileChange E document changes waitedDelay).
Proof.
  unfold onFileChange.
  apply keeps_bind; [apply keeps_gets | intros oc]. cbv beta zeta.
  destruct oc as [c0|]; [|apply keeps_ret].
  destruct (delay E =? 0)%Z; [apply keeps_ret|].
  assert (forall t, keeps (passFrame (fsPath document))
                      (updCollection (fsPath document) (Coll.setLastChange t))) as Hupd.
  { intros t s. apply passFrame_updCollection. intros c. simpl. auto. }
  apply keeps_bind; [apply keeps_now | intros t1]. cbv beta.
  destruct (t1 - Coll.lastChange c0 <? delay E)%Z.
  - destruct (negb waitedDelay); [|apply keeps_ret].
    apply keeps_bind; [apply keeps_now | intros t2].
    apply keeps_bind; [apply Hupd | intros _; apply keeps_emit].
  - apply keeps_bind; [apply keeps_now | intros t2].
    apply keeps_bind; [apply Hupd | intros _].
    apply keeps_bind; [apply keeps_now | intros t3].
    apply keeps_bind; [apply keeps_getCollection | intros c1]. cbv beta.
    destruct (timeout E <? t3 - Coll.lastChange c1)%Z; [apply keeps_ret|].
    apply keeps_withPending.
    + apply keeps_bind; [apply keeps_forOfPictures | intros u].
      apply keeps_forEach. intros p. apply keeps_detached. apply keeps_updateTikzPicture.
    + apply keeps_detached. apply keeps_checkPreamble.
Qed.

(** X5. Whatever the batch does, also when the loop throws and the
    preamble check started before it still runs to its end,
    [onFileChange] assigns only the range and the content of a picture:
    every stored picture keeps its temporary file and its time stamp, and
    no picture object is created or lost. *)
Theorem onFileChange_keeps_artifacts (waitedDelay : bool) (s : State) (q : ref) :
  tempFile <$> (store (snd (onFileChange E document changes waitedDelay s)) !! q)
  = tempFile <$> (store s !! q)
  /\ lastChange <$> (store (snd (onFileChange E document changes waitedDelay s)) !! q)
     = lastChange <$> (store s !! q).
Proof.
  destruct (keeps_onFileChange waitedDelay s) as (H1 & H2 & _). split; [apply H1 | apply H2].
Qed.

(** X6. [onFileChange] for one document, however it ends, leaves the
    collections of all other documents as they are, and it never starts
    tracking a picture: the array of the document after the call is the
    array before it with some elements taken out, in the same order, under
    the same directory and file. *)
Theorem onFileChange_only_shrinks_own_array (waitedDelay : bool) (s : State) (c : Coll.t) :
  tikzCollections s !! fsPath document = Some c ->
  (forall k, k <> fsPath document ->
     tikzCollections (snd (onFileChange E document changes waitedDelay s)) !! k
     = tikzCollections s !! k)
  /\ exists c',
       tikzCollections (snd (onFileChange E document changes waitedDelay s)) !! fsPath document
       = Some c'
       /\ sublist (Coll.tikzPictures c') (Coll.tikzPictures c)
       /\ Coll.texFileLocation c' = Coll.texFileLocation c
       /\ Coll.tempDir c' = Coll.tempDir c.
Proof.
  intros Hc. destruct (keeps_onFileChange waitedDelay s) as (_ & _ & H3 & _ & _ & H6).
  split; [exact H3|]. rewrite Hc in H6.
  destruct (tikzCollections (snd _) !! fsPath document) as [c'|]; [|contradiction].
  exists c'. split; [reflexivity | exact H6].
Qed.

(** *** The pictures to recompile *)

Lemma applyChange_toUpdate (key : string) (p : ref) (toUpdate u : list ref)
    (change : Change.t) (s : State) :
  fst (applyChange document key p toUpdate change s) = Ret u ->
  u = toUpdate \/ ((p ∉ toUpdate) /\ u = (toUpdate ++ [p])%list).
Proof.
  unfold applyChange, bind, getPicture.
  destruct (store s !! p) as [pic|]; [|discriminate].
  destruct (Pos.isBefore _ _); [intros [= <-]; auto|].
  destruct (Pos.isAfter (start (range pic)) _).
  - unfold lift, setPicture, modify.
    destruct (Pos.translate (start (range pic)) _ _); [|discriminate].
    destruct (Pos.translate (end_ (range pic)) _ _); [|discriminate].
    intros [= <-]. auto.
  - destruct (_ && _).
    + unfold updCollection, cleanupTikzPicture, bind, getPicture, emit, modify. simpl.
      destruct (store s !! p); [|discriminate]. intros [= <-]. auto.
    + destruct (processModificationToTikzPicture _ _ _ _ s) as [[[]|e] s1]; [|discriminate].
      simpl. intros [= <-]. unfold includes.
      destruct (bool_decide_reflect (p ∈ toUpdate)); auto.
Qed.

Lemma applyChanges_NoDup (key : string) (p : ref) (toUpdate u : list ref) (s : State) :
  NoDup toUpdate ->
  fst (applyChanges document key p toUpdate changes s) = Ret u ->
  NoDup u.
Proof.
  revert toUpdate s. induction changes as [|c cs IH]; intros toUpdate s Hnd; simpl.
  - intros [= <-]. exact Hnd.
  - unfold bind.
    destruct (applyChange document key p toUpdate c s) as [[u1|e] s1] eqn:Hrun;
      [|discriminate].
    intros Hu. apply (IH u1 s1); [|exact Hu].
    destruct (applyChange_toUpdate key p toUpdate u1 c s) as [->|[Hnot ->]];
      [rewrite Hrun; reflexivity | exact Hnd |].
    apply NoDup_app. split; [exact Hnd|]. split; [|apply NoDup_singleton].
    intros x Hx Hx'. apply list_elem_of_singleton in Hx'. subst. contradiction.
Qed.

(** X7. The pictures queued for recompilation by a pass are pairwise
    distinct: a picture modified by several edits of the batch is
    recompiled once. *)
Theorem forOfPictures_queue_NoDup (key : string) (bound i : nat) (toUpdate u : list ref)
    (s : State) :
  NoDup toUpdate ->
  fst (forOfPictures E document key changes bound i toUpdate s) = Ret u ->
  NoDup u.
Proof.
  revert i toUpdate s. induction bound as [|bound IH]; intros i toUpdate s Hnd; simpl;
    unfold bind, getCollection;
    (destruct (tikzCollections s !! key) as [c|]; [|discriminate]);
    (destruct (Coll.tikzPictures c !! i) as [p|]; [|intros [= <-]; exact Hnd]);
    [discriminate|].
  unfold visitPicture at 1. unfold bind, getPicture.
  destruct (store s !! p) as [pic|]; [|discriminate].
  destruct (viewerClosed E pic).
  - unfold updCollection, cleanupTikzPicture, bind, getPicture, emit, modify. simpl.
    destruct (store s !! p); [|discriminate]. simpl. apply IH. exact Hnd.
  - destruct (applyChanges document key p toUpdate changes s) as [[u1|e] s1] eqn:Hrun;
      [|discriminate].
    apply IH. apply (applyChanges_NoDup key p toUpdate u1 s Hnd). rewrite Hrun. reflexivity.
Qed.

End PassProperties.

(** ** Creating fragments and collections *)

Section Creation.

Variable E : Env.

Lemma findEntry_unmatched (pics : list ref) (r : Range) (s : State) :
  allocated s pics ->
  (forall q pic, q ∈ pics -> store s !! q = Some pic -> range pic <> r) ->
  findEntry pics r s = (Ret None, s).
Proof.
  intros Hall Hno. destruct (findEntry_total pics r s Hall) as [[q|] Hf]; [|exact Hf].
  destruct (findEntry_some _ _ _ _ Hf) as (Hin & pic & Hq & Hr).
  apply range_isEqual_eq in Hr. exfalso. exact (Hno q pic Hin Hq Hr).
Qed.

(** The run of [getTikzEntry] when no tracked picture has the range. *)
Lemma getTikzEntry_new_run (key : string) (r : Range) (content : string) (s : State)
    (c : Coll.t) :
  tikzCollections s !! key = Some c ->
  allocated s (Coll.tikzPictures c) ->
  (forall q pic, q ∈ Coll.tikzPictures c -> store s !! q = Some pic -> range pic <> r) ->
  getTikzEntry E key r content s
  = (Ret (nextRef s),
     mkState
       (<[key := Coll.setPictures (Coll.tikzPictures c ++ [nextRef s])%list c]>
          (tikzCollections s))
       (<[nextRef s :=
            mkPicture r content
              (pathJoin (Coll.tempDir c)
                 ("tikzpicture-" +:+ decimal (Z.rem (clock E (ticks s)) 100000000) +:+ ".tex"))
              (clock E (S (ticks s)))]> (store s))
       (S (nextRef s)) (initalised s) (S (S (ticks s))) (trace s)).
Proof.
  intros Hc Hall Hno. unfold getTikzEntry, bind, getCollection. rewrite Hc.
  rewrite (findEntry_unmatched _ _ _ Hall Hno).
  unfold now, gets, modify, setPicture, updCollection, modify, ret. simpl.
  unfold setCollections, setStore. simpl. do 2 f_equal.
  apply map_eq. intros k. rewrite lookup_alter, lookup_insert.
  destruct (decide (key = k)) as [<-|]; [rewrite Hc|]; reflexivity.
Qed.

(** X8. A request for a range that no tracked picture has creates one
    picture object, with exactly the range and content asked for, a
    temporary file in the directory of the collection named after the
    first clock reading modulo 100000000, and the second clock reading as
    time stamp.  The object is appended at the end of the array; the
    pictures stored before, the other collections and the trace are as
    they were. *)
Theorem getTikzEntry_creates (key : string) (r : Range) (content : string) (s : State)
    (c : Coll.t) :
  tikzCollections s !! key = Some c ->
  allocated s (Coll.tikzPictures c) ->
  (forall q pic, q ∈ Coll.tikzPictures c -> store s !! q = Some pic -> range pic <> r) ->
  store s !! nextRef s = None ->
  exists p s',
    getTikzEntry E key r content s = (Ret p, s')
    /\ store s' !! p
       = Some (mkPicture r content
                 (pathJoin (Coll.tempDir c)
                    ("tikzpicture-" +:+ decimal (Z.rem (clock E (ticks s)) 100000000)
                     +:+ ".tex"))
                 (clock E (S (ticks s))))
    /\ tikzCollections s' !! key
       = Some (Coll.setPictures (Coll.tikzPictures c ++ [p])%list c)
    /\ (forall q pic, store s !! q = Some pic -> store s' !! q = Some pic)
    /\ (forall k, k <> key -> tikzCollections s' !! k = tikzCollections s !! k)
    /\ trace s' = trace s.
Proof.
  intros Hc Hall Hno Hfresh. eexists _, _.
  split; [apply (getTikzEntry_new_run key r content s c Hc Hall Hno)|]. simpl.
  split; [apply lookup_insert_eq|]. split; [apply lookup_insert_eq|].
  split; [|split; [|reflexivity]].
  - intros q pic Hq. rewrite lookup_insert_ne by congruence. exact Hq.
  - intros k Hk. rewrite lookup_insert_ne by congruence. reflexivity.
Qed.

(** X9. The names of the temporary files are not kept apart: two pictures
    created one after the other for different ranges, at clock readings
    that agree modulo 100000000, are two objects with one and the same
    temporary file. *)
Theorem getTikzEntry_same_file_name (key : string) (r1 r2 : Range) (content1 content2 : string)
    (s : State) (c : Coll.t) :
  tikzCollections s !! key = Some c ->
  allocated s (Coll.tikzPictures c) ->
  (forall q pic, q ∈ Coll.tikzPictures c -> store s !! q = Some pic ->
                 range pic <> r1 /\ range pic <> r2) ->
  r1 <> r2 ->
  Z.rem (clock E (ticks s)) 100000000 = Z.rem (clock E (S (S (ticks s)))) 100000000 ->
  exists s1 s2 pic1 pic2,
    getTikzEntry E key r1 content1 s = (Ret (nextRef s), s1)
    /\ getTikzEntry E key r2 content2 s1 = (Ret (S (nextRef s)), s2)
    /\ store s2 !! nextRef s = Some pic1
    /\ store s2 !! S (nextRef s) = Some pic2
    /\ range pic1 = r1 /\ range pic2 = r2
    /\ tempFile pic1 = tempFile pic2.
Proof.
  intros Hc Hall Hno Hne Hclock.
  assert (forall q pic, q ∈ Coll.tikzPictures c -> store s !! q = Some pic -> range pic <> r1)
    as Hno0 by (intros q pic Hq Hp; exact (proj1 (Hno q pic Hq Hp))).
  pose proof (getTikzEntry_new_run key r1 content1 s c Hc Hall Hno0) as Hrun1.
  set (pic1 := mkPicture r1 content1 _ _) in Hrun1.
  set (s1 := mkState _ _ _ _ _ _) in Hrun1.
  assert (tikzCollections s1 !! key
          = Some (Coll.setPictures (Coll.tikzPictures c ++ [nextRef s])%list c)) as Hc1
    by apply lookup_insert_eq.
  assert (allocated s1 (Coll.tikzPictures c ++ [nextRef s])%list) as Hall1.
  { apply Forall_app. split.
    - eapply Forall_impl; [exact Hall|]. intros q [pq Hq]. simpl.
      destruct (decide (nextRef s = q)) as [<-|Hn].
      + rewrite lookup_insert_eq. eauto.
      + rewrite lookup_insert_ne by exact Hn. eauto.
    - constructor; [|constructor]. simpl. rewrite lookup_insert_eq. eauto. }
  assert (forall q pic, q ∈ (Coll.tikzPictures c ++ [nextRef s])%list ->
                        store s1 !! q = Some pic -> range pic <> r2) as Hno1.
  { intros q pic Hq. simpl. destruct (decide (nextRef s = q)) as [<-|Hn].
    - rewrite lookup_insert_eq. intros [= <-]. exact Hne.
    - rewrite lookup_insert_ne by exact Hn. intros Hp.
      apply elem_of_app in Hq as [Hq|Hq].
      + exact (proj2 (Hno q pic Hq Hp)).
      + apply list_elem_of_singleton in Hq. congruence. }
  pose proof (getTikzEntry_new_run key r2 content2 s1 _ Hc1 Hall1 Hno1) as Hrun2.
  eexists s1, _, pic1, _. split; [exact Hrun1|]. split; [exact Hrun2|]. simpl.
  split; [rewrite lookup_insert_ne by lia; apply lookup_insert_eq|].
  split; [apply lookup_insert_eq|].
  repeat split. simpl. rewrite Hclock. reflexivity.
Qed.

(** X10. [getFileTikzCollection] creates the collection of a document on
    first use, empty, with an empty preamble, the directory made for it
    and the clock reading, and returns the existing one afterwards: a
    second call changes nothing.  The collections of other documents are
    not touched. *)
Theorem getFileTikzCollection_on_first_use (document : TextDocument) (s : State) :
  exists s1 c,
    getFileTikzCollection E document s = (Ret (fsPath document), s1)
    /\ tikzCollections s1 !! fsPath document = Some c
    /\ getFileTikzCollection E document s1 = (Ret (fsPath document), s1)
    /\ (tikzCollections s !! fsPath document = None ->
        c = Coll.mk (fsPath document) (mkdtempSync E (fsPath document)) [] ""
              (clock E (ticks s)))
    /\ (is_Some (tikzCollections s !! fsPath document) -> s1 = s)
    /\ (forall k, k <> fsPath document -> tikzCollections s1 !! k = tikzCollections s !! k)
    /\ store s1 = store s.
Proof.
  unfold getFileTikzCollection, bind, gets, now, modify, ret. simpl.
  destruct (tikzCollections s !! fsPath document) as [c|] eqn:Hc; simpl.
  - exists s, c. rewrite Hc. simpl. repeat split; auto. discriminate.
  - eexists _, _. split; [reflexivity|]. simpl. rewrite lookup_insert_eq. simpl.
    split; [reflexivity|]. split; [reflexivity|]. split; [reflexivity|].
    split; [intros [? [=]]|]. split; [|reflexivity].
    intros k Hk. rewrite lookup_insert_ne by congruence. reflexivity.
Qed.

End Creation.

(** ** The preamble once more *)

Section Refresh.

Variable E : Env.

Lemma updateTikzPicture_collections p s :
  tikzCollections (snd (updateTikzPicture E p s)) = tikzCollections s.
Proof.
  unfold updateTikzPicture, bind, getPicture.
  destruct (store s !! p) as [pic|]; [|reflexivity].
  simpl. destruct (viewerClosed E pic); reflexivity.
Qed.

Lemma forEach_update_collections l s :
  tikzCollections (snd (forEach (updateTikzPicture E) l s)) = tikzCollections s.
Proof.
  revert s. induction l as [|p l IH]; intros s; [reflexivity|].
  simpl. unfold bind.
  pose proof (updateTikzPicture_collections p s) as H1.
  destruct (updateTikzPicture E p s) as [[[]|e] s1]; simpl in *; [|exact H1].
  rewrite IH. exact H1.
Qed.

(** After [checkPreamble], however it ended, the collection holds the
    candidate as its preamble. *)
Lemma checkPreamble_commits (key : string) (maxParsedLine : option nat) (s : State)
    (c : Coll.t) :
  tikzCollections s !! key = Some c ->
  tikzCollections (snd (checkPreamble E key maxParsedLine s)) !! key
  = Some (Coll.setPreamble (generatePreamble E (Coll.texFileLocation c) maxParsedLine) c).
Proof.
  intros Hc. unfold checkPreamble, bind, getCollection. rewrite Hc.
  destruct (String.eqb_spec (Coll.preamble c)
              (generatePreamble E (Coll.texFileLocation c) maxParsedLine)) as [Heq|Hne]; simpl.
  - rewrite Hc, <- Heq. destruct c; reflexivity.
  - unfold precompilePreamble, bind, updCollection, emit, modify. simpl.
    destruct (pdftex E _ _); simpl.
    + rewrite lookup_alter_eq, Hc. simpl.
      match goal with |- context [forEach ?f ?l ?st] =>
        pose proof (forEach_update_collections l st) as H;
        destruct (forEach f l st) as [[[]|e] s2] end; simpl in *;
        rewrite H, lookup_alter_eq, Hc; reflexivity.
    + rewrite lookup_alter_eq, Hc. reflexivity.
Qed.

(** X11. The candidate is stored before the preamble file is precompiled:
    whatever the outcome of a refresh (also when [pdftex] could not be
    run and nothing was recompiled), the same refresh run again at once
    answers [stable] and does nothing.  A failed precompilation is not
    tried again until the generated preamble changes. *)
Theorem checkPreamble_again_is_stable (key : string) (maxParsedLine : option nat) (s : State)
    (c : Coll.t) :
  tikzCollections s !! key = Some c ->
  checkPreamble E key maxParsedLine (snd (checkPreamble E key maxParsedLine s))
  = (Ret stable, snd (checkPreamble E key maxParsedLine s)).
Proof.
  intros Hc. pose proof (checkPreamble_commits key maxParsedLine s c Hc) as H1.
  set (s1 := snd (checkPreamble E key maxParsedLine s)) in *.
  unfold checkPreamble at 1. unfold bind, getCollection. rewrite H1. simpl.
  rewrite String.eqb_refl. reflexivity.
Qed.

End Refresh.

(** ** A whole view request *)

Section View.

Variable E : Env.

Lemma getTikzEntry_facts (key : string) (r : Range) (content : string) (s : State)
    (c : Coll.t) :
  tikzCollections s !! key = Some c ->
  allocated s (Coll.tikzPictures c) ->
  exists p s1 c1 pic,
    getTikzEntry E key r content s = (Ret p, s1)
    /\ tikzCollections s1 !! key = Some c1
    /\ allocated s1 (Coll.tikzPictures c1)
    /\ store s1 !! p = Some pic
    /\ p ∈ Coll.tikzPictures c1
    /\ Coll.preamble c1 = Coll.preamble c
    /\ Coll.texFileLocation c1 = Coll.texFileLocation c
    /\ Coll.tempDir c1 = Coll.tempDir c
    /\ trace s1 = trace s
    /\ range pic = r.
Proof.
  intros Hc Hall.
  destruct (findEntry_total _ r _ Hall) as [[q|] Hf].
  - destruct (findEntry_some _ _ _ _ Hf) as (Hin & picq & Hpq & Hr).
    apply range_isEqual_eq in Hr.
    exists q, s, c, picq. repeat split; auto.
    eapply getTikzEntry_resolved; eauto.
  - unfold getTikzEntry, bind, getCollection. rewrite Hc, Hf.
    unfold now, gets, modify, setPicture, updCollection, modify, ret. simpl.
    eexists _, _, _, _. split; [reflexivity|]. simpl.
    split; [rewrite lookup_alter_eq, Hc; reflexivity|]. simpl.
    split; [|split; [apply lookup_insert_eq|]].
    + apply Forall_app. split.
      * eapply Forall_impl; [exact Hall|]. intros q [pq Hq]. simpl.
        destruct (decide (nextRef s = q)) as [<-|Hn].
        -- rewrite lookup_insert_eq. eauto.
        -- rewrite lookup_insert_ne by exact Hn. eauto.
      * constructor; [|constructor]. simpl. rewrite lookup_insert_eq. eauto.
    + split; [apply elem_of_app; right; left|]. repeat split.
Qed.

Lemma viewEntry_facts (document : TextDocument) (r : Range) (s : State) :
  (forall c, tikzCollections s !! fsPath document = Some c ->
             allocated s (Coll.tikzPictures c)) ->
  exists p s1 c1 pic,
    viewEntry E document r s = (Ret (fsPath document, p), s1)
    /\ tikzCollections s1 !! fsPath document = Some c1
    /\ allocated s1 (Coll.tikzPictures c1)
    /\ store s1 !! p = Some pic
    /\ p ∈ Coll.tikzPictures c1
    /\ range pic = r
    /\ trace s1
       = (trace s ++ if initalised s then [] else [EvCleanupTempDir; EvMkdir])%list
    /\ (forall c, tikzCollections s !! fsPath document = Some c ->
                  Coll.preamble c1 = Coll.preamble c
                  /\ Coll.texFileLocation c1 = Coll.texFileLocation c
                  /\ Coll.tempDir c1 = Coll.tempDir c)
    /\ (tikzCollections s !! fsPath document = None ->
        Coll.preamble c1 = ""
        /\ Coll.texFileLocation c1 = fsPath document
        /\ Coll.tempDir c1 = mkdtempSync E (fsPath document)).
Proof.
  intros Hwf.
  assert (exists s0 c0,
            viewEntry E document r s
            = match getTikzEntry E (fsPath document) r (getText document r) s0 with
              | (Ret p, s') => (Ret (fsPath document, p), s')
              | (Throw e, s') => (Throw e, s')
              end
            /\ tikzCollections s0 !! fsPath document = Some c0
            /\ allocated s0 (Coll.tikzPictures c0)
            /\ trace s0
               = (trace s ++ if initalised s then [] else [EvCleanupTempDir; EvMkdir])%list
            /\ (forall c, tikzCollections s !! fsPath document = Some c -> c0 = c)
            /\ (tikzCollections s !! fsPath document = None ->
                c0 = Coll.mk (fsPath document) (mkdtempSync E (fsPath document)) [] ""
                       (clock E (ticks s)))) as (s0 & c0 & Hv & Hc0 & Hall0 & Htr0 & Hsome & Hnone).
  { unfold viewEntry, getFileTikzCollection, bind, gets, ret, emit, modify, now.
    destruct (initalised s) eqn:Hi; simpl;
      destruct (tikzCollections s !! fsPath document) as [c|] eqn:Hc; simpl;
      eexists _, _; (split; [reflexivity|]); simpl.
    - split; [exact Hc|]. split; [exact (Hwf c eq_refl)|].
      split; [rewrite app_nil_r; reflexivity|].
      split; [intros ? [= <-]; reflexivity | discriminate].
    - split; [apply lookup_insert_eq|]. split; [constructor|].
      split; [rewrite app_nil_r; reflexivity|].
      split; [discriminate | reflexivity].
    - split; [exact Hc|]. split; [exact (Hwf c eq_refl)|].
      split; [rewrite <- app_assoc; reflexivity|].
      split; [intros ? [= <-]; reflexivity | discriminate].
    - split; [apply lookup_insert_eq|]. split; [constructor|].
      split; [rewrite <- app_assoc; reflexivity|].
      split; [discriminate | reflexivity]. }
  destruct (getTikzEntry_facts (fsPath document) r (getText document r) s0 c0 Hc0 Hall0)
    as (p & s1 & c1 & pic & Hg & Hc1 & Hall1 & Hp & Hin & Hpre & Hloc & Hdir & Htr & Hr).
  rewrite Hg in Hv. exists p, s1, c1, pic.
  split; [exact Hv|]. split; [exact Hc1|]. split; [exact Hall1|]. split; [exact Hp|].
  split; [exact Hin|]. split; [exact Hr|]. split; [congruence|]. split.
  - intros c Hc. rewrite <- (Hsome c Hc). auto.
  - intros Hc. rewrite (Hnone Hc) in *. auto.
Qed.

(** X12. A view request resolves to a tracked picture with the range
    asked for, and what it compiles is this.  When the generated preamble
    is the stored one, the picture resolved to is compiled and shown, and
    nothing else is observed or stored.  When the preamble changed and the
    precompilation process exits, the preamble is stored and precompiled
    and then [updateTikzPicture] runs once for each element of the tracked
    array, in the order of the array; the picture resolved to is one of
    them and is not compiled again afterwards.  Before that the request
    cleans and makes the temporary folder if the view was not initialised,
    and does nothing else that is observed. *)
Theorem view_compiles_requested_picture (document : TextDocument) (r : Range) (s : State) :
  (forall c, tikzCollections s !! fsPath document = Some c ->
             allocated s (Coll.tikzPictures c)) ->
  exists p s1 c1 pic,
    viewEntry E document r s = (Ret (fsPath document, p), s1)
    /\ tikzCollections s1 !! fsPath document = Some c1
    /\ p ∈ Coll.tikzPictures c1
    /\ store s1 !! p = Some pic
    /\ range pic = r
    /\ trace s1
       = (trace s ++ if initalised s then [] else [EvCleanupTempDir; EvMkdir])%list
    /\ let candidate :=
         generatePreamble E (Coll.texFileLocation c1) (Some (line (start r))) in
       let file := pathJoin (Coll.tempDir c1) "preamble.tex" in
       (candidate = Coll.preamble c1 ->
        exists s2,
          view E document r s = (Ret tt, s2)
          /\ store s2 = store s1
          /\ tikzCollections s2 = tikzCollections s1
          /\ trace s2 = (trace s1 ++ updateEvents E pic)%list)
       /\ (candidate <> Coll.preamble c1 ->
           forall code,
             pdftex E file candidate = ProcExit code ->
             exists s2,
               view E document r s = (Ret tt, s2)
               /\ store s2 = store s1
               /\ tikzCollections s2
                  = <[fsPath document := Coll.setPreamble candidate c1]> (tikzCollections s1)
               /\ trace s2
                  = (trace s1 ++ EvPrecompile file (preambleFileText candidate)
                       :: updateEventsOf E (store s1) (Coll.tikzPictures c1))%list
               /\ recompilations (trace s2)
                  = (recompilations (trace s1) + length (Coll.tikzPictures c1))%nat).
Proof.
  intros Hwf.
  destruct (viewEntry_facts document r s Hwf)
    as (p & s1 & c1 & pic & Hv & Hc1 & Hall1 & Hp & Hin & Hr & Htr & _).
  exists p, s1, c1, pic. split; [exact Hv|]. split; [exact Hc1|]. split; [exact Hin|].
  split; [exact Hp|]. split; [exact Hr|]. split; [exact Htr|].
  intros candidate file. unfold view, bind. rewrite Hv. simpl.
  unfold viewRefresh, bind, checkPreamble, bind, getCollection. rewrite Hc1.
  fold candidate. split.
  - intros Heq. rewrite Heq, String.eqb_refl. simpl.
    rewrite (updateTikzPicture_run E p pic s1 Hp).
    eexists. split; [reflexivity|]. repeat split.
  - intros Hne code Hpdf.
    assert (String.eqb (Coll.preamble c1) candidate = false) as ->
      by (apply String.eqb_neq; congruence).
    simpl. unfold precompilePreamble, bind, updCollection, emit, modify. simpl.
    fold file. rewrite Hpdf. simpl. rewrite lookup_alter_eq, Hc1. simpl.
    rewrite forEach_update_run by exact Hall1. simpl.
    eexists. split; [reflexivity|]. simpl. split; [reflexivity|]. split; [|split].
    + apply map_eq. intros k. rewrite lookup_alter, lookup_insert.
      destruct (decide (fsPath document = k)) as [<-|]; [rewrite Hc1|]; reflexivity.
    + rewrite <- app_assoc. reflexivity.
    + rewrite <- app_assoc, recompilations_app. simpl.
      rewrite recompilations_updateEventsOf by exact Hall1. reflexivity.
Qed.

End View.

(** ** Edge behaviour of a pass *)

Section Edges.

Variable E : Env.
Variable document : TextDocument.

Lemma applyChanges_missing_line (key : string) (p : ref) (pic : IFileTikzPicture)
    (toUpdate : list ref) (change : Change.t) (rest : list Change.t) (s : State) :
  store s !! p = Some pic ->
  modificationCase pic change ->
  (line (start (Change.range change)) <= line (start (range pic)))%nat ->
  lineAt document (line (start (range pic))) = None ->
  applyChanges document key p toUpdate (change :: rest) s
  = (Throw "Illegal value for `line`", s)
  /\ (viewerClosed E pic = false ->
      visitPicture E document key (change :: rest) p toUpdate s
      = (Throw "Illegal value for `line`", s)).
Proof.
  intros Hp (H1 & H2 & H3) Hle Hline.
  assert (applyChanges document key p toUpdate (change :: rest) s
          = (Throw "Illegal value for `line`", s)) as Hrun.
  { simpl. unfold bind at 1. unfold applyChange, bind, getPicture. rewrite Hp, H1, H2.
    assert (Pos.isAfter (end_ (Change.range change)) (start (range pic))
            && (Z.of_nat (line (end_ (Change.range change))) - lineDeltaOf change
                <? Z.of_nat (line (start (range pic))))%Z = false) as ->.
    { destruct H3 as [->|H3]; [reflexivity|].
      apply andb_false_iff. right. apply Z.ltb_ge. exact H3. }
    unfold processModificationToTikzPicture, bind, getPicture, lift. rewrite Hp.
    unfold startLocation. apply Nat.leb_le in Hle. rewrite Hle, Hline. reflexivity. }
  split; [exact Hrun|].
  intros Hv. unfold visitPicture, bind, getPicture. rewrite Hp, Hv. exact Hrun.
Qed.

(** X13. Re-anchoring reads the line on which the picture started before
    the edit.  When the edited document no longer has that line (the
    picture stood at the end of the document and was deleted with the
    lines above it), the host throws and the exception leaves the pass:
    [onFileChange] rejects, no picture has been re-anchored or removed,
    the rest of the batch is not applied and nothing is recompiled for
    the batch.  What the pass has done by then stays: the time of the
    last change is set, three clock readings are taken, and the preamble
    check started before the loop runs to its end on that state, so the
    generated preamble is stored, and precompiled and the pictures
    recompiled if it differs from the stored one. *)
Theorem onFileChange_throws_on_missing_line (p : ref) (pic : IFileTikzPicture)
    (others : list ref) (change : Change.t) (rest : list Change.t) (waitedDelay : bool)
    (s : State) (c0 : Coll.t) :
  tikzCollections s !! fsPath document = Some c0 ->
  delay E <> 0 ->
  (delay E <= clock E (ticks s) - Coll.lastChange c0)%Z ->
  (clock E (S (S (ticks s))) - clock E (S (ticks s)) <= timeout E)%Z ->
  Coll.tikzPictures c0 = p :: others ->
  store s !! p = Some pic ->
  viewerClosed E pic = false ->
  modificationCase pic change ->
  (line (start (Change.range change)) <= line (start (range pic)))%nat ->
  lineAt document (line (start (range pic))) = None ->
  let s0 :=
    mkState
      (<[fsPath document := Coll.setLastChange (clock E (S (ticks s))) c0]> (tikzCollections s))
      (store s) (nextRef s) (initalised s) (S (S (S (ticks s)))) (trace s) in
  let s' := snd (onFileChange E document (change :: rest) waitedDelay s) in
  onFileChange E document (change :: rest) waitedDelay s
  = (Throw "Illegal value for `line`",
     snd (detached (checkPreamble E (fsPath document) None) s0))
  /\ store s' = store s
  /\ Coll.tikzPictures <$> (tikzCollections s' !! fsPath document) = Some (p :: others)
  /\ Coll.preamble <$> (tikzCollections s' !! fsPath document)
     = Some (generatePreamble E (Coll.texFileLocation c0) None).
Proof.
  intros Hc Hd Hdelay Htimeout Hpics Hp Hv Hmod Hle Hline s0 s'.
  assert (tikzCollections s0 !! fsPath document
          = Some (Coll.setLastChange (clock E (S (ticks s))) c0)) as Hc0
    by apply lookup_insert_eq.
  assert (onFileChange E document (change :: rest) waitedDelay s
          = (Throw "Illegal value for `line`",
             snd (detached (checkPreamble E (fsPath document) None) s0))) as Hrun.
  { apply Z.eqb_neq in Hd. apply Z.ltb_ge in Hdelay. apply Z.ltb_ge in Htimeout.
    unfold onFileChange, bind, gets, now, updCollection, modify, getCollection. simpl.
    rewrite Hc, Hd. simpl. rewrite Hdelay. simpl.
    rewrite lookup_alter_eq, Hc. simpl. rewrite Htimeout.
    unfold withPending. rewrite Hpics.
    cbn [length forOfPictures]. unfold bind at 1. unfold getCollection. simpl.
    rewrite lookup_alter_eq, Hc. simpl. rewrite Hpics. simpl.
    unfold bind at 1.
    match goal with |- context [visitPicture E document ?k ?cs p [] ?st] =>
      rewrite (proj2 (applyChanges_missing_line k p pic [] change rest st Hp Hmod Hle Hline)
                 Hv)
    end.
    simpl. do 3 f_equal. unfold s0, setTicks, setCollections. simpl. f_equal.
    apply map_eq. intros k. rewrite lookup_alter, lookup_insert.
    destruct (decide (fsPath document = k)) as [<-|]; [rewrite Hc|]; reflexivity. }
  split; [exact Hrun|]. unfold s'. rewrite Hrun. simpl.
  pose proof (checkPreamble_sameFragments E (fsPath document) None s0) as (Hst & _ & Hpc).
  pose proof (checkPreamble_commits E (fsPath document) None s0 _ Hc0) as Hcom.
  unfold detached.
  destruct (checkPreamble E (fsPath document) None s0) as [[st|e] s1]; simpl in *.
  - split; [exact Hst|]. split.
    + rewrite Hpc, Hc0. simpl. rewrite Hpics. reflexivity.
    + rewrite Hcom. reflexivity.
  - split; [exact Hst|]. split.
    + rewrite Hpc, Hc0. simpl. rewrite Hpics. reflexivity.
    + rewrite Hcom. reflexivity.
Qed.

Lemma onFileChange_put_off (changes : list Change.t) (s : State) (c0 : Coll.t) :
  tikzCollections s !! fsPath document = Some c0 ->
  delay E <> 0 ->
  (clock E (ticks s) - Coll.lastChange c0 < delay E)%Z ->
  onFileChange E document changes false s
  = (Ret tt,
     mkState
       (<[fsPath document := Coll.setLastChange (clock E (S (ticks s))) c0]>
          (tikzCollections s))
       (store s) (nextRef s) (initalised s) (S (S (ticks s)))
       (trace s ++ [EvSetTimeout (delay E)])).
Proof.
  intros Hc Hd H1. apply Z.ltb_lt in H1. apply Z.eqb_neq in Hd.
  unfold onFileChange, bind, gets, now, updCollection, emit, modify. simpl.
  rewrite Hc, Hd. simpl. rewrite H1. simpl.
  unfold setTicks, setTrace, setCollections. simpl. do 2 f_equal.
  apply map_eq. intros k. rewrite lookup_alter, lookup_insert.
  destruct (decide (fsPath document = k)) as [<-|]; [rewrite Hc|]; reflexivity.
Qed.

Lemma onFileChange_timer_too_early (changes : list Change.t) (s : State) (c0 : Coll.t) :
  tikzCollections s !! fsPath document = Some c0 ->
  delay E <> 0 ->
  (clock E (ticks s) - Coll.lastChange c0 < delay E)%Z ->
  onFileChange E document changes true s = (Ret tt, setTicks (S (ticks s)) s).
Proof.
  intros Hc Hd H1. apply Z.ltb_lt in H1. apply Z.eqb_neq in Hd.
  unfold onFileChange, bind, gets, now. simpl.
  rewrite Hc, Hd. simpl. rewrite H1. reflexivity.
Qed.

(** X14. A batch that is overtaken is lost.  The first batch arrives
    within the delay and is put off; the second arrives before the timer
    of the first has fired and is put off as well; when the timer of the
    first fires, still within the delay of the second, the first batch is
    dropped without a new timer.  None of its edits is ever applied: after
    the three calls the pictures and the arrays are as before, whatever
    the first batch was. *)
Theorem overtaken_batch_is_dropped (first second : list Change.t) (s : State) (c0 : Coll.t) :
  tikzCollections s !! fsPath document = Some c0 ->
  delay E <> 0 ->
  (clock E (ticks s) - Coll.lastChange c0 < delay E)%Z ->
  (clock E (S (S (ticks s))) - clock E (S (ticks s)) < delay E)%Z ->
  (clock E (S (S (S (S (ticks s))))) - clock E (S (S (S (ticks s)))) < delay E)%Z ->
  overtaken E document first second s
  = (Ret tt,
     mkState
       (<[fsPath document := Coll.setLastChange (clock E (S (S (S (ticks s))))) c0]>
          (tikzCollections s))
       (store s) (nextRef s) (initalised s) (S (S (S (S (S (ticks s))))))
       (trace s ++ [EvSetTimeout (delay E); EvSetTimeout (delay E)])).
Proof.
  intros Hc Hd H1 H2 H3. unfold overtaken, bind.
  rewrite (onFileChange_put_off first s c0 Hc Hd H1).
  match goal with |- context [onFileChange E document second false ?s1] =>
    rewrite (onFileChange_put_off second s1
               (Coll.setLastChange (clock E (S (ticks s))) c0)
               (lookup_insert_eq _ _ _) Hd H2)
  end.
  match goal with |- context [onFileChange E document first true ?s2] =>
    rewrite (onFileChange_timer_too_early first s2
               (Coll.setLastChange (clock E (S (S (S (ticks s))))) c0)
               (lookup_insert_eq _ _ _) Hd H3)
  end.
  simpl. unfold setTicks. simpl. rewrite <- app_assoc. simpl. do 2 f_equal.
  apply insert_insert_eq.
Qed.

End Edges.

(** ** The preamble generator *)

Section Strings.

Lemma append_cons (x : ascii) (a b : string) : String x a +:+ b = String x (a +:+ b).
Proof. reflexivity. Qed.

Lemma append_nil_l (b : string) : "" +:+ b = b.
Proof. reflexivity. Qed.

Ltac app_simpl := rewrite ?append_cons, ?append_nil_l; simpl; rewrite ?append_cons, ?append_nil_l.

Lemma append_assoc (a b c : string) : (a +:+ b) +:+ c = a +:+ (b +:+ c).
Proof. induction a as [|x a IH]; app_simpl; [reflexivity | rewrite IH; reflexivity]. Qed.

Lemma append_nil_r (a : string) : a +:+ "" = a.
Proof. induction a as [|x a IH]; app_simpl; [reflexivity | rewrite IH; reflexivity]. Qed.

Lemma length_append (a b : string) :
  String.length (a +:+ b) = (String.length a + String.length b)%nat.
Proof. induction a as [|x a IH]; app_simpl; [reflexivity | rewrite IH; reflexivity]. Qed.

Lemma dropString_append (a b : string) : dropString (String.length a) (a +:+ b) = b.
Proof. induction a as [|x a IH]; app_simpl; [reflexivity | exact IH]. Qed.

Lemma substring_append (a b : string) : String.substring 0 (String.length a) (a +:+ b) = a.
Proof.
  induction a as [|x a IH]; app_simpl; [destruct b; reflexivity | rewrite IH; reflexivity].
Qed.

Lemma substring_zero (s : string) : String.substring 0 0 s = "".
Proof. destruct s; reflexivity. Qed.

Lemma prefix_append (t a b : string) :
  String.prefix t a = true -> String.prefix t (a +:+ b) = true.
Proof.
  revert a. induction t as [|x t IH]; intros a; [destruct (a +:+ b); reflexivity|].
  destruct a as [|y a]; app_simpl; [discriminate|].
  destruct (ascii_dec x y); [apply IH | discriminate].
Qed.

Lemma searchSub_cons (t : string) (x : ascii) (s : string) :
  searchSub t (String x s)
  = if String.prefix t (String x s) then Some O else S <$> searchSub t s.
Proof. reflexivity. Qed.

Lemma searchSub_append_l (t a b : string) :
  is_Some (searchSub t a) -> is_Some (searchSub t (a +:+ b)).
Proof.
  induction a as [|x a IH].
  - simpl. destruct t; [|intros [? [=]]].
    intros _. rewrite append_nil_l. destruct b; simpl; eauto.
  - rewrite append_cons, !searchSub_cons.
    destruct (String.prefix t (String x a)) eqn:Hp.
    + intros _. rewrite <- append_cons, (prefix_append _ _ b Hp). eauto.
    + intros H. destruct (searchSub t a) as [k|]; [|destruct H as [? [=]]].
      destruct (String.prefix t (String x (a +:+ b))); [eauto|].
      destruct IH as [k' ->]; [eauto|]. simpl. eauto.
Qed.

Lemma searchSub_append_r (t a b : string) :
  is_Some (searchSub t b) -> is_Some (searchSub t (a +:+ b)).
Proof.
  intros H. induction a as [|x a IH]; [exact H|].
  rewrite append_cons, searchSub_cons.
  destruct (String.prefix t (String x (a +:+ b))); [eauto|].
  destruct IH as [k ->]. simpl. eauto.
Qed.

Lemma jsIncludes_append_l (a b t : string) :
  jsIncludes a t = true -> jsIncludes (a +:+ b) t = true.
Proof.
  unfold jsIncludes. intros H.
  destruct (searchSub_append_l t a b) as [k ->]; [|reflexivity].
  destruct (searchSub t a); [eauto | discriminate].
Qed.

Lemma jsIncludes_append_r (a b t : string) :
  jsIncludes b t = true -> jsIncludes (a +:+ b) t = true.
Proof.
  unfold jsIncludes. intros H.
  destruct (searchSub_append_r t a b) as [k ->]; [|reflexivity].
  destruct (searchSub t b); [eauto | discriminate].
Qed.

Lemma countNewlines_append (a b : string) :
  countNewlines (a +:+ b) = (countNewlines a + countNewlines b)%nat.
Proof.
  induction a as [|x a IH]; app_simpl; [reflexivity|].
  destruct (Ascii.eqb x "010"); rewrite IH; reflexivity.
Qed.

Lemma prefix_newline (c : ascii) (s : string) :
  String.prefix newline (String c s) = Ascii.eqb c "010".
Proof.
  change (String.prefix newline (String c s))
    with (if ascii_dec "010" c then String.prefix "" s else false).
  destruct (ascii_dec "010" c) as [Heq|Hne].
  - subst c. destruct s; reflexivity.
  - symmetry. apply Ascii.eqb_neq. congruence.
Qed.

Lemma searchSub_no_newline (s : string) :
  countNewlines s = O -> searchSub newline s = None.
Proof.
  induction s as [|c s IH]; [reflexivity|].
  rewrite searchSub_cons, prefix_newline. cbn [countNewlines].
  destruct (Ascii.eqb c "010"); [discriminate|].
  intros H. rewrite (IH H). reflexivity.
Qed.

Lemma searchSub_first_newline (a b : string) :
  countNewlines a = O -> searchSub newline (a +:+ newline +:+ b) = Some (String.length a).
Proof.
  induction a as [|c a IH].
  - intros _. rewrite append_nil_l. unfold newline at 2. rewrite append_cons, append_nil_l.
    rewrite searchSub_cons, prefix_newline. reflexivity.
  - rewrite append_cons, searchSub_cons, prefix_newline. cbn [countNewlines String.length].
    destruct (Ascii.eqb c "010"); [discriminate|].
    intros H. rewrite (IH H). reflexivity.
Qed.

Lemma split_first_newline (a : string) (m : nat) :
  countNewlines a = S m ->
  exists a1 a2, a = a1 +:+ newline +:+ a2 /\ countNewlines a1 = O /\ countNewlines a2 = m.
Proof.
  induction a as [|c a IH]; simpl; [discriminate|].
  destruct (Ascii.eqb_spec c "010") as [->|Hne].
  - intros [= H]. exists "", a. auto.
  - intros H. destruct (IH H) as (a1 & a2 & -> & H1 & H2).
    exists (String c a1), a2. simpl.
    destruct (Ascii.eqb_spec c "010"); [contradiction|]. auto.
Qed.

Lemma jsIndexOf_at (pre rem pat : string) :
  jsIndexOf (pre +:+ rem) pat (Z.of_nat (String.length pre))
  = match searchSub pat rem with
    | Some k => Z.of_nat (String.length pre + k)
    | None => (-1)%Z
    end.
Proof.
  unfold jsIndexOf. rewrite length_append.
  replace (Z.to_nat _) with (String.length pre) by lia.
  rewrite dropString_append. reflexivity.
Qed.

Lemma length_newline : String.length newline = 1%nat.
Proof. reflexivity. Qed.

Lemma nthIndexLoop_step (str : string) (n : nat) (i : Z) :
  nthIndexLoop str newline (S n) i
  = if (i <? Z.of_nat (String.length str))%Z then
      if (jsIndexOf str newline (i + 1) <? 0)%Z then jsIndexOf str newline (i + 1)
      else nthIndexLoop str newline n (jsIndexOf str newline (i + 1))
    else (i + 1)%Z.
Proof. reflexivity. Qed.

Lemma nthIndexLoop_found (n : nat) (pre a b : string) :
  countNewlines a = n ->
  nthIndexLoop (pre +:+ a +:+ newline +:+ b) newline (S n) (Z.of_nat (String.length pre) - 1)
  = Z.of_nat (String.length pre + String.length a).
Proof.
  revert pre a. induction n as [|n IH]; intros pre a Ha.
  - rewrite nthIndexLoop_step, !length_append, length_newline.
    match goal with |- context [(?x <? ?y)%Z] =>
      destruct (Z.ltb_spec x y); [|lia] end.
    replace (Z.of_nat (String.length pre) - 1 + 1)%Z with (Z.of_nat (String.length pre)) by lia.
    rewrite jsIndexOf_at, (searchSub_first_newline a b Ha).
    destruct (Z.ltb_spec (Z.of_nat (String.length pre + String.length a)) 0); [lia|reflexivity].
  - destruct (split_first_newline a n Ha) as (a1 & a2 & -> & H1 & H2).
    rewrite nthIndexLoop_step, !length_append, !length_newline.
    match goal with |- context [(?x <? ?y)%Z] =>
      destruct (Z.ltb_spec x y); [|lia] end.
    replace (Z.of_nat (String.length pre) - 1 + 1)%Z with (Z.of_nat (String.length pre)) by lia.
    rewrite jsIndexOf_at. rewrite !append_assoc.
    rewrite (searchSub_first_newline a1 _ H1).
    destruct (Z.ltb_spec (Z.of_nat (String.length pre + String.length a1)) 0); [lia|].
    specialize (IH (pre +:+ a1 +:+ newline) a2 H2).
    rewrite !append_assoc in IH. rewrite !length_append, length_newline in IH.
    replace (Z.of_nat (String.length pre + (String.length a1 + 1)) - 1)%Z
      with (Z.of_nat (String.length pre + String.length a1)) in IH by lia.
    rewrite IH. f_equal. lia.
Qed.

Lemma nthIndexLoop_missing (n : nat) (pre rem : string) :
  (countNewlines rem <= n)%nat ->
  nthIndexLoop (pre +:+ rem) newline (S n) (Z.of_nat (String.length pre) - 1) = (-1)%Z.
Proof.
  revert pre rem. induction n as [|n IH]; intros pre rem Hrem.
  - rewrite nthIndexLoop_step, length_append.
    match goal with |- context [(?x <? ?y)%Z] =>
      destruct (Z.ltb_spec x y); [|lia] end.
    replace (Z.of_nat (String.length pre) - 1 + 1)%Z with (Z.of_nat (String.length pre)) by lia.
    rewrite jsIndexOf_at, searchSub_no_newline by lia. reflexivity.
  - rewrite nthIndexLoop_step, length_append.
    match goal with |- context [(?x <? ?y)%Z] =>
      destruct (Z.ltb_spec x y); [|lia] end.
    replace (Z.of_nat (String.length pre) - 1 + 1)%Z with (Z.of_nat (String.length pre)) by lia.
    rewrite jsIndexOf_at.
    destruct (countNewlines rem) as [|m] eqn:Hm.
    + rewrite searchSub_no_newline by exact Hm. reflexivity.
    + destruct (split_first_newline rem m Hm) as (a1 & a2 & -> & H1 & H2).
      rewrite (searchSub_first_newline a1 a2 H1).
      destruct (Z.ltb_spec (Z.of_nat (String.length pre + String.length a1)) 0); [lia|].
      specialize (IH (pre +:+ a1 +:+ newline) a2 ltac:(lia)).
      rewrite !append_assoc in IH. rewrite !length_append, length_newline in IH.
      replace (Z.of_nat (String.length pre + (String.length a1 + 1)) - 1)%Z
        with (Z.of_nat (String.length pre + String.length a1)) in IH by lia.
      exact IH.
Qed.

End Strings.

Section Generator.

(** X15. The window searched for declarations when a line number is
    passed: it is the text before the [n]-th line break, that is the first
    [n] lines, when the text has that many line breaks, and it is empty
    when the text has fewer ([nthIndex] answers [-1], and [substring(0,
    -1)] is the empty string), so that no declaration of the document is
    found then.  A line number 0 counts as no line number. *)
Theorem parsedWindow_first_lines (content : string) (n : nat) :
  (forall pre post,
     content = pre +:+ newline +:+ post -> countNewlines pre = n ->
     parsedWindow content (Some (S n)) = pre)
  /\ ((countNewlines content <= n)%nat -> parsedWindow content (Some (S n)) = "")
  /\ parsedWindow content (Some O) = parsedWindow content None.
Proof.
  split; [|split; [|reflexivity]].
  - intros pre post -> Hpre. unfold parsedWindow, nthIndex.
    pose proof (nthIndexLoop_found n "" pre post Hpre) as H.
    rewrite append_nil_l in H. change (Z.of_nat (String.length "") - 1)%Z with (-1)%Z in H.
    rewrite H. unfold substring0. rewrite length_append.
    replace (Z.to_nat _) with (String.length pre) by (simpl; lia).
    apply substring_append.
  - intros Hc. unfold parsedWindow, nthIndex.
    pose proof (nthIndexLoop_missing n "" content Hc) as H.
    rewrite append_nil_l in H. change (Z.of_nat (String.length "") - 1)%Z with (-1)%Z in H.
    rewrite H. unfold substring0.
    replace (Z.to_nat _) with O by lia. apply substring_zero.
Qed.

Lemma assemblePreamble_baseline (commandsString : string) (commands : list string)
    (folder : string) :
  jsIncludes (assemblePreamble commandsString commands folder) "\usepackage{tikz}" = true
  /\ exists body,
       assemblePreamble commandsString commands folder
       = body +:+ "\pgfplotsset{table/search path={" +:+ folder +:+ "}}" +:+ trailer.
Proof.
  unfold assemblePreamble.
  set (pre := commandsString +:+ newline +:+ joinWith newline commands).
  destruct (jsIncludes pre "\usepackage{tikz}") eqn:Hinc.
  - split; [|exists pre; rewrite !append_assoc; reflexivity].
    apply jsIncludes_append_l. apply jsIncludes_append_l. exact Hinc.
  - split.
    + apply jsIncludes_append_l. apply jsIncludes_append_l.
      apply jsIncludes_append_l. reflexivity.
    + exists (String "010" ("\usepackage{tikz}" +:+ newline) +:+ pre).
      rewrite !append_assoc. reflexivity.
Qed.

Lemma countChar_append (c : ascii) (a b : string) :
  countChar c (a +:+ b) = (countChar c a + countChar c b)%nat.
Proof.
  induction a as [|x a IH]; [rewrite append_nil_l; reflexivity|].
  rewrite append_cons. simpl. rewrite IH. lia.
Qed.

Lemma allWord_countChar (c : ascii) (w : string) :
  isWordChar c = false -> allWord w = true -> countChar c w = 0%nat.
Proof.
  intros Hc. induction w as [|x w IH]; [reflexivity|]. simpl.
  intros H. apply andb_true_iff in H as [Hx Hw].
  destruct (Ascii.eqb_spec x c) as [->|_]; [congruence|]. rewrite (IH Hw). reflexivity.
Qed.

(** The name in front of [afterName s] has neither a slash nor a dot. *)
Lemma afterName_counts (c : ascii) (s : string) :
  isNameChar c = false ->
  countChar c s = countChar c (afterName s).
Proof.
  intros Hc. induction s as [|x s IH]; [reflexivity|]. simpl.
  destruct (isNameChar x) eqn:Hx; [|reflexivity].
  destruct (Ascii.eqb_spec x c) as [->|_]; [congruence|]. exact IH.
Qed.

Lemma afterName_name (name rest : string) (d : ascii) :
  forallb isNameChar (list_ascii_of_string name) = true ->
  isNameChar d = false ->
  afterName (name +:+ String d rest) = String d rest.
Proof.
  intros Hname Hd. induction name as [|x name IH].
  - rewrite append_nil_l. simpl. rewrite Hd. reflexivity.
  - rewrite append_cons. simpl in *. apply andb_true_iff in Hname as [-> Hname].
    apply IH. exact Hname.
Qed.

(** A matched segment has its only slash in front and exactly one dot. *)
Lemma isFileSegment_counts (s : string) :
  isFileSegment s = true ->
  exists t, s = String "/" t /\ countChar "/" t = 0%nat /\ countChar "." t = 1%nat.
Proof.
  destruct s as [|c [|c1 rest]]; try discriminate. simpl.
  intros H. apply andb_true_iff in H as [H Hrest]. apply andb_true_iff in H as [Hc Hc1].
  apply Ascii.eqb_eq in Hc as ->. exists (String c1 rest). split; [reflexivity|].
  destruct (afterName rest) as [|d ext] eqn:Hafter; [discriminate|].
  apply andb_true_iff in Hrest as [Hd Hext]. apply andb_true_iff in Hd as [Hd _].
  apply Ascii.eqb_eq in Hd as ->.
  unfold isNameChar in Hc1. apply andb_true_iff in Hc1 as [Hs Hdot].
  apply negb_true_iff in Hs, Hdot.
  simpl. rewrite Hs, Hdot.
  rewrite (afterName_counts "/" rest eq_refl), (afterName_counts "." rest eq_refl), Hafter.
  simpl. rewrite (allWord_countChar "/" ext eq_refl Hext),
    (allWord_countChar "." ext eq_refl Hext). split; reflexivity.
Qed.

Lemma isFileSegment_file (name ext : string) :
  name <> "" -> forallb isNameChar (list_ascii_of_string name) = true ->
  ext <> "" -> allWord ext = true ->
  isFileSegment ("/" +:+ name +:+ "." +:+ ext) = true.
Proof.
  intros Hname Hall Hext Hword.
  destruct name as [|c1 name]; [congruence|].
  repeat (rewrite append_cons || rewrite append_nil_l).
  simpl in Hall. apply andb_true_iff in Hall as [Hc1 Hall].
  cbn [isFileSegment]. rewrite Hc1.
  rewrite (afterName_name name ext "." Hall eq_refl).
  rewrite Hword. apply String.eqb_neq in Hext. rewrite Hext. reflexivity.
Qed.

Lemma parentFolder_no_slash (s : string) :
  countChar "/" s = 0%nat -> parentFolder s = s.
Proof.
  induction s as [|c s IH]; [reflexivity|]. intros Hs.
  assert (isFileSegment (String c s) = false) as Hseg.
  { destruct (isFileSegment (String c s)) eqn:H; [|reflexivity].
    destruct (isFileSegment_counts _ H) as (t & [= -> <-] & _). simpl in Hs. lia. }
  cbn [parentFolder]. rewrite Hseg. rewrite IH; [reflexivity|].
  simpl in Hs. lia.
Qed.

(** A position in front of the last slash is not where the pattern matches. *)
Lemma parentFolder_skips (dir rest : string) :
  parentFolder (dir +:+ String "/" rest) = dir +:+ parentFolder (String "/" rest).
Proof.
  induction dir as [|c dir IH]; [rewrite !append_nil_l; reflexivity|].
  rewrite !append_cons.
  assert (isFileSegment (String c (dir +:+ String "/" rest)) = false) as Hseg.
  { destruct (isFileSegment (String c (dir +:+ String "/" rest))) eqn:H; [|reflexivity].
    destruct (isFileSegment_counts _ H) as (t & [= -> <-] & Hs & _).
    rewrite countChar_append in Hs. simpl in Hs. lia. }
  cbn [parentFolder]. rewrite Hseg, IH. reflexivity.
Qed.

Lemma parentFolder_file (dir name ext : string) :
  name <> "" -> forallb isNameChar (list_ascii_of_string name) = true ->
  ext <> "" -> allWord ext = true ->
  parentFolder (dir +:+ "/" +:+ name +:+ "." +:+ ext) = dir.
Proof.
  intros Hname Hall Hext Hword.
  pose proof (isFileSegment_file name ext Hname Hall Hext Hword) as Hseg.
  repeat (rewrite append_cons in Hseg || rewrite append_nil_l in Hseg).
  repeat (rewrite append_cons || rewrite append_nil_l).
  rewrite parentFolder_skips.
  cbn [parentFolder]. rewrite Hseg. apply append_nil_r.
Qed.

Lemma parentFolder_other (dir file : string) :
  countChar "/" file = 0%nat -> countChar "." file <> 1%nat ->
  parentFolder (dir +:+ "/" +:+ file) = dir +:+ "/" +:+ file.
Proof.
  intros Hslash Hdots.
  repeat (rewrite append_cons || rewrite append_nil_l).
  rewrite parentFolder_skips. f_equal.
  assert (isFileSegment (String "/" file) = false) as Hseg.
  { destruct (isFileSegment (String "/" file)) eqn:H; [|reflexivity].
    destruct (isFileSegment_counts _ H) as (t & [= <-] & _ & Hd). congruence. }
  cbn [parentFolder]. rewrite Hseg, (parentFolder_no_slash file Hslash). reflexivity.
Qed.

(** X16. With [parseTeXFile] on, [generatePreamble] either throws, which
    it does only when a file it reads cannot be read (the document
    itself is read without a check for its existence), or returns a
    preamble that contains the import of TikZ, whatever the document and
    the extra declarations hold, and that ends with a search path and the
    two lines that switch compression off.  The search path is the path
    of the document with its last segment cut off by the pattern of the
    code: it is the folder of the document when the file name is a name
    without dots followed by one dot and an extension of word characters,
    and it is the whole path of the file when the file name has no dot or
    more than one. *)
Theorem generatePreambleFrom_parsing (P : PreambleSources) (texFileLocation : string)
    (maxParsedLine : option nat) :
  parseTeXFile P = true ->
  match generatePreambleFrom P texFileLocation maxParsedLine with
  | Ret preamble =>
      jsIncludes preamble "\usepackage{tikz}" = true
      /\ exists body,
           preamble
           = body +:+ "\pgfplotsset{table/search path={"
             +:+ parentFolder (if win32 P then toUnixPath texFileLocation
                               else texFileLocation)
             +:+ "}}" +:+ trailer
  | Throw _ =>
      readFileSync P texFileLocation = None
      \/ exists e, extraDeclarations P = Throw e
  end
  /\ (forall dir name ext,
        name <> "" -> forallb isNameChar (list_ascii_of_string name) = true ->
        ext <> "" -> allWord ext = true ->
        parentFolder (dir +:+ "/" +:+ name +:+ "." +:+ ext) = dir)
  /\ (forall dir file,
        countChar "/" file = 0%nat -> countChar "." file <> 1%nat ->
        parentFolder (dir +:+ "/" +:+ file) = dir +:+ "/" +:+ file).
Proof.
  intros Hparse. split; [|split; [apply parentFolder_file | apply parentFolder_other]].
  unfold generatePreambleFrom. rewrite Hparse. simpl.
  destruct (extraDeclarations P) as [read|e]; [|right; eauto].
  unfold readOrThrow. destruct (readFileSync P texFileLocation) as [text|]; [|left; reflexivity].
  apply assemblePreamble_baseline.
Qed.

(** X17. With [parseTeXFile] off, the document is not read at all: the
    result does not depend on the document path or on the line number, and
    it is the text of the extra declarations with its blank lines emptied
    and nothing else, so neither the import of TikZ nor the closing lines
    are added. *)
Theorem generatePreambleFrom_without_parsing (P : PreambleSources)
    (texFileLocation texFileLocation' : string) (maxParsedLine maxParsedLine' : option nat) :
  parseTeXFile P = false ->
  generatePreambleFrom P texFileLocation maxParsedLine
  = generatePreambleFrom P texFileLocation' maxParsedLine'
  /\ generatePreambleFrom P texFileLocation maxParsedLine
     = match extraDeclarations P with
       | Ret read => Ret (emptyBlankLines P read)
       | Throw e => Throw e
       end.
Proof.
  intros Hparse. unfold generatePreambleFrom. rewrite Hparse. simpl.
  destruct (extraDeclarations P); split; reflexivity.
Qed.

End Generator.

(** ** The marker patterns *)

Section Patterns.

Lemma starCls_sound {A} (p : ascii -> bool) (s : string) (k : string -> option A) (x : A) :
  starCls p s k = Some x -> exists rest, matches (StarCls p) s rest /\ k rest = Some x.
Proof.
  induction s as [|c s IH]; simpl.
  - intros H. exists "". split; [constructor | exact H].
  - destruct (p c) eqn:Hp.
    + destruct (starCls p s k) as [y|] eqn:Hs.
      * intros [= <-]. destruct (IH eq_refl) as (rest & Hm & Hk).
        exists rest. split; [constructor; assumption | exact Hk].
      * intros H. exists (String c s). split; [constructor | exact H].
    + intros H. exists (String c s). split; [constructor | exact H].
Qed.

Lemma prefix_split (l s : string) :
  String.prefix l s = true -> s = l +:+ dropString (String.length l) s.
Proof.
  revert s. induction l as [|x l IH]; intros s; [destruct s; reflexivity|].
  destruct s as [|y s]; [discriminate|].
  change (String.prefix (String x l) (String y s))
    with (if ascii_dec x y then String.prefix l s else false).
  destruct (ascii_dec x y) as [->|]; [|discriminate].
  intros H. rewrite append_cons. cbn [String.length dropString]. f_equal. apply IH. exact H.
Qed.

Lemma prefix_append_self (l rest : string) : String.prefix l (l +:+ rest) = true.
Proof.
  induction l as [|x l IH]; [destruct rest; reflexivity|].
  rewrite append_cons.
  change (String.prefix (String x l) (String x (l +:+ rest)))
    with (if ascii_dec x x then String.prefix l (l +:+ rest) else false).
  destruct (ascii_dec x x); [exact IH | congruence].
Qed.

Lemma matchRe_sound {A} (r : regex) (s : string) (k : string -> option A) (x : A) :
  matchRe r s k = Some x -> exists rest, matches r s rest /\ k rest = Some x.
Proof.
  revert s k x. induction r as [l|p|r1 IH1 r2 IH2|r1 IH1 r2 IH2]; intros s k x; simpl.
  - destruct (String.prefix l s) eqn:Hp; [|discriminate].
    intros H. exists (dropString (String.length l) s). split; [|exact H].
    rewrite (prefix_split l s Hp) at 1. constructor.
  - apply starCls_sound.
  - intros H. destruct (IH1 _ _ _ H) as (mid & Hm1 & H2).
    destruct (IH2 _ _ _ H2) as (rest & Hm2 & Hk).
    exists rest. split; [econstructor; eassumption | exact Hk].
  - destruct (matchRe r1 s k) as [y|] eqn:H1.
    + intros [= <-]. destruct (IH1 _ _ _ H1) as (rest & Hm & Hk).
      exists rest. split; [apply matches_alt_l; exact Hm | exact Hk].
    + intros H. destruct (IH2 _ _ _ H) as (rest & Hm & Hk).
      exists rest. split; [apply matches_alt_r; exact Hm | exact Hk].
Qed.

Lemma matchRe_complete {A} (r : regex) (s rest : string) (k : string -> option A) :
  matches r s rest -> is_Some (k rest) -> is_Some (matchRe r s k).
Proof.
  intros Hm. revert k. induction Hm; intros k Hk; simpl.
  - rewrite prefix_append_self, dropString_append. exact Hk.
  - destruct s as [|c s]; simpl; [exact Hk|].
    destruct (p c); [|exact Hk]. destruct (starCls p s k); [eauto | exact Hk].
  - rewrite H. destruct (IHHm k Hk) as [y Hy]. simpl in Hy. rewrite Hy. eauto.
  - apply IHHm1. apply IHHm2. exact Hk.
  - destruct (IHHm k Hk) as [y ->]. eauto.
  - destruct (matchRe r1 s k); [eauto|]. apply IHHm. exact Hk.
Qed.

Lemma matches_star_split (p : ascii -> bool) (s rest : string) :
  matches (StarCls p) s rest ->
  exists u, s = u +:+ rest /\ forallb p (list_ascii_of_string u) = true.
Proof.
  intros H. remember (StarCls p) as r eqn:Hr. revert Hr.
  induction H; intros Hr; try discriminate.
  - exists "". split; reflexivity.
  - injection Hr as ->. destruct (IHmatches eq_refl) as (u & -> & Hu).
    exists (String c u). split; [reflexivity|]. simpl. rewrite H, Hu. reflexivity.
Qed.

Lemma allWord_forallb (w : string) : allWord w = forallb isWordChar (list_ascii_of_string w).
Proof. induction w as [|c w IH]; simpl; [reflexivity | rewrite IH; reflexivity]. Qed.

Lemma allWord_append (a b : string) : allWord (a +:+ b) = allWord a && allWord b.
Proof.
  induction a as [|c a IH]; [reflexivity|].
  rewrite append_cons. simpl. rewrite IH, andb_assoc. reflexivity.
Qed.

Lemma matches_star_word (w rest : string) :
  allWord w = true -> matches (StarCls isWordChar) (w +:+ rest) rest.
Proof.
  induction w as [|c w IH]; [intros _; constructor|].
  simpl. intros H. apply andb_true_iff in H as [Hc Hw].
  rewrite append_cons. constructor; [exact Hc | exact (IH Hw)].
Qed.

Lemma searchSub_split (t s : string) (k : nat) :
  searchSub t s = Some k -> exists u v, s = u +:+ t +:+ v.
Proof.
  revert k. induction s as [|c s IH]; intros k.
  - simpl. destruct t; [|discriminate]. intros _. exists "", "". reflexivity.
  - rewrite searchSub_cons. destruct (String.prefix t (String c s)) eqn:Hp.
    + intros _. exists "", (dropString (String.length t) (String c s)).
      rewrite append_nil_l. apply prefix_split. exact Hp.
    + destruct (searchSub t s) as [k'|]; [|discriminate]. intros _.
      destruct (IH k' eq_refl) as (u & v & ->). exists (String c u), v. reflexivity.
Qed.

Lemma searchSub_found (t u v : string) : is_Some (searchSub t (u +:+ t +:+ v)).
Proof.
  apply searchSub_append_r.
  destruct (t +:+ v) as [|c s] eqn:Hs.
  - destruct t; [simpl; eauto | discriminate].
  - rewrite searchSub_cons, <- Hs, prefix_append_self. eauto.
Qed.

(** The names matched by the alternative of the patterns. *)
Lemma matches_tikzName (s rest : string) :
  matches tikzName s rest <-> exists w, s = w +:+ rest /\ tikzLike w.
Proof.
  split.
  - intros H. inversion H as [| | | |? ? ? ? H1|? ? ? ? H1]; subst; clear H.
    + inversion H1; subst. exists "tikzpicture". split; [reflexivity|]. split; reflexivity.
    + inversion H1 as [| | |? ? ? mid ? Hu H2| |]; subst; clear H1.
      inversion H2 as [| | |? ? ? mid2 ? Ht Hv| |]; subst; clear H2.
      inversion Ht; subst; clear Ht.
      destruct (matches_star_split _ _ _ Hu) as (u & -> & Hwu).
      destruct (matches_star_split _ _ _ Hv) as (v & -> & Hwv).
      exists (u +:+ "tikz" +:+ v). rewrite !append_assoc. split; [reflexivity|]. split.
      * rewrite !allWord_append, !allWord_forallb, Hwu, Hwv. reflexivity.
      * unfold jsIncludes. destruct (searchSub_found "tikz" u v) as [k ->]. reflexivity.
  - intros (w & -> & Hw & Hinc). unfold jsIncludes in Hinc.
    destruct (searchSub "tikz" w) as [k|] eqn:Hk; [|discriminate].
    destruct (searchSub_split _ _ _ Hk) as (u & v & ->).
    rewrite !allWord_append in Hw. apply andb_true_iff in Hw as [Hu Hv].
    apply andb_true_iff in Hv as [_ Hv].
    apply matches_alt_r. rewrite !append_assoc.
    eapply matches_seq; [apply matches_star_word; exact Hu|].
    eapply matches_seq; [apply matches_lit | apply matches_star_word; exact Hv].
Qed.

Lemma append_cancel_l (a b c : string) : a +:+ b = a +:+ c -> b = c.
Proof.
  induction a as [|x a IH]; [auto|]. rewrite !append_cons. intros [= H]. exact (IH H).
Qed.

(** A word followed by a closing brace is determined by the text. *)
Lemma word_before_brace (w w' r r' : string) :
  allWord w = true -> allWord w' = true ->
  w +:+ "}" +:+ r = w' +:+ "}" +:+ r' -> w = w' /\ r = r'.
Proof.
  revert w'. induction w as [|c w IH]; intros [|c' w'] Hw Hw';
    repeat (rewrite append_cons || rewrite append_nil_l).
  - intros [= ->]. auto.
  - intros [= <- _]. simpl in Hw'. discriminate.
  - intros [= -> _]. simpl in Hw. discriminate.
  - intros [= <- H].
    simpl in Hw, Hw'. apply andb_true_iff in Hw as [_ Hw]. apply andb_true_iff in Hw' as [_ Hw'].
    assert (w +:+ "}" +:+ r = w' +:+ "}" +:+ r') as H'
      by (repeat (rewrite append_cons || rewrite append_nil_l); exact H).
    destruct (IH w' Hw Hw' H') as [-> ->]. auto.
Qed.

Lemma marker_matchAt (kw s : string) (n : nat) :
  matchAt (Seq (Lit kw) (Seq tikzName (Lit "}"))) s = Some n <->
  exists w rest,
    s = kw +:+ w +:+ "}" +:+ rest /\ tikzLike w
    /\ n = (String.length kw + String.length w + 1)%nat.
Proof.
  assert (forall m, matchAt (Seq (Lit kw) (Seq tikzName (Lit "}"))) s = Some m ->
            exists w rest,
              s = kw +:+ w +:+ "}" +:+ rest /\ tikzLike w
              /\ m = (String.length kw + String.length w + 1)%nat) as Hsound.
  { intros m H. unfold matchAt in H.
    destruct (matchRe_sound _ _ _ _ H) as (rest & Hm & Hn).
    inversion Hm as [| | |? ? ? s1 ? Hkw H1| |]; subst; clear Hm.
    inversion Hkw; subst; clear Hkw.
    inversion H1 as [| | |? ? ? mid ? Hname Hbrace| |]; subst; clear H1.
    inversion Hbrace; subst; clear Hbrace.
    apply matches_tikzName in Hname as (w & -> & Hw).
    exists w, rest. split; [reflexivity|]. split; [exact Hw|].
    injection Hn as <-. rewrite !length_append.
    change (String.length "}") with 1%nat. lia. }
  split; [apply Hsound|].
  intros (w & rest & -> & Hw & ->).
  assert (matches (Seq (Lit kw) (Seq tikzName (Lit "}"))) (kw +:+ w +:+ "}" +:+ rest) rest)
    as Hm.
  { eapply matches_seq; [apply matches_lit|].
    eapply matches_seq; [|apply matches_lit].
    apply matches_tikzName. exists w. auto. }
  destruct (matchRe_complete _ _ _
              (fun rest' => Some (String.length (kw +:+ w +:+ "}" +:+ rest)
                                  - String.length rest')%nat) Hm) as [m Hrun]; [eauto|].
  fold (matchAt (Seq (Lit kw) (Seq tikzName (Lit "}"))) (kw +:+ w +:+ "}" +:+ rest)) in Hrun.
  rewrite Hrun. destruct (Hsound m Hrun) as (w' & rest' & Heq & [Hw' _] & ->).
  apply append_cancel_l in Heq.
  destruct (word_before_brace w w' rest rest' (proj1 Hw) Hw' Heq) as [-> _]. reflexivity.
Qed.

Lemma searchFrom_sound (r : regex) (s : string) (i j n : nat) :
  searchFrom r s i = Some (j, n) ->
  exists pre rest,
    s = pre +:+ rest /\ j = (i + String.length pre)%nat /\ matchAt r rest = Some n.
Proof.
  revert i. induction s as [|c s IH]; intros i; simpl.
  - destruct (matchAt r "") as [m|] eqn:Hm; [|discriminate].
    intros [= <- <-]. exists "", "". repeat split; [cbn [String.length]; lia | exact Hm].
  - destruct (matchAt r (String c s)) as [m|] eqn:Hm.
    + intros [= <- <-]. exists "", (String c s).
      repeat split; [cbn [String.length]; lia | exact Hm].
    + intros H. destruct (IH _ H) as (pre & rest & -> & -> & Hr).
      exists (String c pre), rest. repeat split; [cbn [String.length]; lia | exact Hr].
Qed.

Lemma searchFrom_complete (r : regex) (pre rest : string) (i : nat) :
  is_Some (matchAt r rest) -> is_Some (searchFrom r (pre +:+ rest) i).
Proof.
  intros [n Hn]. revert i. induction pre as [|c pre IH]; intros i.
  - rewrite append_nil_l. destruct rest; simpl; rewrite Hn; eauto.
  - rewrite append_cons. simpl.
    destruct (matchAt r (String c (pre +:+ rest))); [eauto | apply IH].
Qed.

Lemma startRegex_matchAt (s : string) (n : nat) :
  matchAt startRegex s = Some n <->
  exists w rest, s = "\begin{" +:+ w +:+ "}" +:+ rest /\ tikzLike w
                 /\ n = (String.length w + 8)%nat.
Proof.
  unfold startRegex. rewrite marker_matchAt.
  split; intros (w & rest & Hs & Hw & ->); exists w, rest;
    (split; [exact Hs|]); (split; [exact Hw|]); simpl; lia.
Qed.

(** X18. What the two marker patterns accept.  At the head of a text,
    the opening pattern matches exactly a backslash, [begin], an opening
    brace, a name of word characters that contains [tikz] and a closing
    brace, and the match is as long as that; [tikzpicture] is one such
    name, as are [tikzcd] and the like.  The closing pattern does the
    same with [end]. *)
Theorem marker_patterns_accept (s : string) (n : nat) :
  (matchAt startRegex s = Some n <->
   exists w rest, s = "\begin{" +:+ w +:+ "}" +:+ rest /\ tikzLike w
                  /\ n = (String.length w + 8)%nat)
  /\ (matchAt endRegex s = Some n <->
      exists w rest, s = "\end{" +:+ w +:+ "}" +:+ rest /\ tikzLike w
                     /\ n = (String.length w + 6)%nat).
Proof.
  split; [apply startRegex_matchAt|].
  unfold endRegex. rewrite marker_matchAt.
  split; intros (w & rest & Hs & Hw & ->); exists w, rest;
    (split; [exact Hs|]); (split; [exact Hw|]); simpl; lia.
Qed.

(** X19. A line has an opening marker for the search exactly when it
    contains such a text somewhere, in a comment or not; the index
    reported is the number of characters in front of a marker. *)
Theorem reMatch_opening_marker (text : string) :
  (reMatch startRegex text = None <->
   ~ exists pre w rest, text = pre +:+ "\begin{" +:+ w +:+ "}" +:+ rest /\ tikzLike w)
  /\ (forall index len,
        reMatch startRegex text = Some (index, len) ->
        exists pre w rest,
          text = pre +:+ "\begin{" +:+ w +:+ "}" +:+ rest /\ tikzLike w
          /\ index = String.length pre /\ len = (String.length w + 8)%nat).
Proof.
  assert (forall index len,
            reMatch startRegex text = Some (index, len) ->
            exists pre w rest,
              text = pre +:+ "\begin{" +:+ w +:+ "}" +:+ rest /\ tikzLike w
              /\ index = String.length pre /\ len = (String.length w + 8)%nat) as Hsome.
  { intros index len H. unfold reMatch in H.
    destruct (searchFrom_sound _ _ _ _ _ H) as (pre & rest0 & -> & -> & Hm).
    apply (proj1 (startRegex_matchAt rest0 len)) in Hm as (w & rest & -> & Hw & ->).
    exists pre, w, rest. auto. }
  split; [|exact Hsome]. split.
  - intros Hnone (pre & w & rest & -> & Hw).
    destruct (searchFrom_complete startRegex pre ("\begin{" +:+ w +:+ "}" +:+ rest) 0)
      as [x Hx].
    + exists (String.length w + 8)%nat.
      apply (proj2 (startRegex_matchAt _ _)). exists w, rest. auto.
    + unfold reMatch in Hnone. congruence.
  - intros Hno. destruct (reMatch startRegex text) as [[index len]|] eqn:H; [|reflexivity].
    exfalso. apply Hno. destruct (Hsome index len eq_refl) as (pre & w & rest & Ht & Hw & _).
    eauto.
Qed.

End Patterns.

(** * Runs of the further properties *)

Section MoreRuns.
Import Scenario Cases.

Lemma applyChange_removal_witness :
  applyChange (Lines.document path oneLine) path 0%nat [] enterAtEnd (one picLine)
  = (Ret [], dropped path (Coll.mk path dir [0%nat] "P" 0) [] picLine (one picLine)).
Proof.
  exact (applyChange_removal (Lines.document path oneLine) path 0%nat picLine []
           enterAtEnd (one picLine) (Coll.mk path dir [0%nat] "P" 0) eq_refl eq_refl
           ltac:(left) ltac:(repeat split; vm_compute; reflexivity)).
Defined.

Lemma applyChange_removal_again_drops_last_witness :
  applyChange (Lines.document path oneLine) path 0%nat [] enterAtEnd untracked
  = (Ret [], dropped path (Coll.mk path dir [1%nat] "P" 0) [] picLine untracked).
Proof.
  exact (applyChange_removal_again_drops_last (Lines.document path oneLine) path 0%nat
           1%nat picLine [] enterAtEnd untracked (Coll.mk path dir [1%nat] "P" 0) []
           eq_refl eq_refl eq_refl ltac:(simpl; intros H; apply list_elem_of_singleton in H; discriminate)
           ltac:(repeat split; vm_compute; reflexivity)).
Defined.

Lemma applyChange_no_removal_without_added_lines_witness :
  picsOf (snd (applyChange (Lines.document path twoPicturesEdited) path 0%nat []
                 editInA two)) = Some [0%nat; 1%nat].
Proof.
  unfold picsOf.
  rewrite (proj1 (applyChange_no_removal_without_added_lines
                    (Lines.document path twoPicturesEdited) path 0%nat [] editInA two
                    ltac:(vm_compute; intro; discriminate))).
  reflexivity.
Defined.

Lemma forOfPictures_none_shown_witness :
  picsOf (snd (forOfPictures (env [] "P" (ProcExit 0)) (Lines.document path twoPictures)
                 path [typeAtEnd] 2 0 [] two)) = Some [1%nat].
Proof.
  assert (forall q : ref, q ∈ [0%nat; 1%nat] ->
            exists pic, store two !! q = Some pic
                        /\ viewerClosed (env [] "P" (ProcExit 0)) pic = true) as Hclosed.
  { intros q Hq. apply elem_of_cons in Hq as [->|Hq].
    - exists picA. split; reflexivity.
    - apply list_elem_of_singleton in Hq as ->. exists picB. split; reflexivity. }
  assert (NoDup [0%nat; 1%nat]) as Hnd by compute_done.
  pose proof (forOfPictures_none_shown (env [] "P" (ProcExit 0))
                (Lines.document path twoPictures) path [typeAtEnd] two
                (Coll.mk path dir [0%nat; 1%nat] "P" 0) eq_refl Hnd Hclosed) as Hrun.
  change (length _) with 2%nat in Hrun. rewrite Hrun. reflexivity.
Defined.

Lemma onFileChange_only_shrinks_own_array_witness :
  exists c',
    tikzCollections (snd (onFileChange (env [] "P" (ProcExit 0))
                            (Lines.document path twoPictures) [typeAtEnd] true two)) !! path
    = Some c'
    /\ sublist (Coll.tikzPictures c') [0%nat; 1%nat].
Proof.
  destruct (onFileChange_only_shrinks_own_array (env [] "P" (ProcExit 0))
              (Lines.document path twoPictures) [typeAtEnd] true two
              (Coll.mk path dir [0%nat; 1%nat] "P" 0) eq_refl)
    as (_ & c' & Hc' & Hsub & _).
  exists c'. split; [exact Hc' | exact Hsub].
Defined.

Lemma forOfPictures_queue_NoDup_witness : NoDup [0%nat].
Proof.
  apply (forOfPictures_queue_NoDup twoOpen (Lines.document path twoPicturesEdited)
           [editInA; editInA] path 2 0 [] [0%nat] two (NoDup_nil_2)).
  vm_compute. reflexivity.
Defined.

Lemma getTikzEntry_creates_witness :
  exists p s',
    getTikzEntry twoOpen path (rng 10 0 12 17) "C" two = (Ret p, s')
    /\ picsOf s' = Some [0%nat; 1%nat; p]
    /\ rangeOf s' p = Some (rng 10 0 12 17).
Proof.
  destruct (getTikzEntry_creates twoOpen path (rng 10 0 12 17) "C" two
              (Coll.mk path dir [0%nat; 1%nat] "P" 0) eq_refl two_allocated)
    as (p & s' & Hrun & Hp & Hc & _).
  - intros q pic Hq. apply elem_of_cons in Hq as [->|Hq].
    + intros [= <-]. discriminate.
    + apply list_elem_of_singleton in Hq as ->. intros [= <-]. discriminate.
  - reflexivity.
  - exists p, s'. split; [exact Hrun|]. unfold picsOf, rangeOf. rewrite Hc, Hp.
    split; reflexivity.
Defined.

Lemma getTikzEntry_same_file_name_witness :
  exists s1 s2 pic1 pic2,
    getTikzEntry slowClock path (rng 10 0 12 17) "C" two = (Ret 2%nat, s1)
    /\ getTikzEntry slowClock path (rng 20 0 22 17) "D" s1 = (Ret 3%nat, s2)
    /\ store s2 !! 2%nat = Some pic1
    /\ store s2 !! 3%nat = Some pic2
    /\ tempFile pic1 = tempFile pic2.
Proof.
  destruct (getTikzEntry_same_file_name slowClock path (rng 10 0 12 17) (rng 20 0 22 17)
              "C" "D" two (Coll.mk path dir [0%nat; 1%nat] "P" 0) eq_refl two_allocated)
    as (s1 & s2 & pic1 & pic2 & H1 & H2 & Hp1 & Hp2 & _ & _ & Hfile).
  - intros q pic Hq. apply elem_of_cons in Hq as [->|Hq].
    + intros [= <-]. split; discriminate.
    + apply list_elem_of_singleton in Hq as ->. intros [= <-]. split; discriminate.
  - discriminate.
  - reflexivity.
  - exists s1, s2, pic1, pic2. auto.
Defined.

Lemma checkPreamble_again_is_stable_witness :
  let E := env [pdfUri fileA; pdfUri fileB] "P2" (ProcExit 1) in
  checkPreamble E path None (snd (checkPreamble E path None two))
  = (Ret stable, snd (checkPreamble E path None two)).
Proof.
  exact (checkPreamble_again_is_stable
           (env [pdfUri fileA; pdfUri fileB] "P2" (ProcExit 1)) path None two
           (Coll.mk path dir [0%nat; 1%nat] "P" 0) eq_refl).
Defined.

Lemma view_compiles_requested_picture_witness :
  exists s2,
    view twoOpen (Lines.document path twoPictures) (rng 0 0 2 17) two = (Ret tt, s2)
    /\ trace s2 = updateEvents twoOpen picA
    /\ store s2 = store two.
Proof.
  destruct (view_compiles_requested_picture twoOpen (Lines.document path twoPictures)
              (rng 0 0 2 17) two)
    as (p & s1 & c1 & pic & Hrun & Hc1 & _ & Hp & _ & _ & Hsame & _).
  - intros c Hc. change (Some (Coll.mk path dir [0%nat; 1%nat] "P" 0) = Some c) in Hc.
    injection Hc as <-. exact two_allocated.
  - vm_compute in Hrun. injection Hrun as <- <-.
    vm_compute in Hc1. injection Hc1 as <-.
    vm_compute in Hp. injection Hp as <-.
    destruct (Hsame eq_refl) as (s2 & Hview & Hst & _ & Htr).
    exists s2. split; [exact Hview|]. split; [exact Htr | exact Hst].
Defined.

Lemma onFileChange_throws_on_missing_line_witness :
  let E := env [pdfUri fileA; pdfUri fileB] "P2" (ProcExit 0) in
  let run := onFileChange E (Lines.document path tailDeleted) [deleteTail; typeAtEnd] false
               lastOnly in
  fst run = Throw "Illegal value for `line`"
  /\ rangeOf (snd run) 1%nat = Some (rng 4 0 6 17)
  /\ picsOf (snd run) = Some [1%nat]
  /\ Coll.preamble <$> (tikzCollections (snd run) !! path) = Some "P2"
  /\ recompilations (trace (snd run)) = 1%nat.
Proof.
  cbv zeta.
  destruct (onFileChange_throws_on_missing_line
              (env [pdfUri fileA; pdfUri fileB] "P2" (ProcExit 0))
              (Lines.document path tailDeleted) 1%nat picB [] deleteTail [typeAtEnd] false
              lastOnly (Coll.mk path dir [1%nat] "P" 0) eq_refl ltac:(discriminate))
    as (Hrun & _ & Hpics & Hpre).
  - vm_compute. discriminate.
  - vm_compute. discriminate.
  - reflexivity.
  - reflexivity.
  - reflexivity.
  - split; [reflexivity|]. split; [reflexivity|]. right. vm_compute. discriminate.
  - simpl. lia.
  - reflexivity.
  - split; [rewrite Hrun; reflexivity|]. split; [rewrite Hrun; reflexivity|].
    split; [exact Hpics|]. split; [exact Hpre|]. rewrite Hrun. reflexivity.
Defined.

Lemma overtaken_batch_is_dropped_witness :
  let run := overtaken twoOpen (Lines.document path twoPicturesEdited) [editInA] [typeAtEnd]
               justEdited in
  fst run = Ret tt
  /\ store (snd run) = store justEdited
  /\ trace (snd run) = [EvSetTimeout 1500; EvSetTimeout 1500].
Proof.
  cbv zeta.
  rewrite (overtaken_batch_is_dropped twoOpen (Lines.document path twoPicturesEdited)
             [editInA] [typeAtEnd] justEdited (Coll.mk path dir [0%nat; 1%nat] "P" 100000)
             eq_refl ltac:(discriminate) eq_refl eq_refl eq_refl).
  repeat split.
Defined.

Lemma generatePreambleFrom_parsing_witness :
  generatePreambleFrom (sources true) path None
  = Ret (String "010" ("\usepackage{tikz}" +:+ newline) +:+ newline
         +:+ "\usepackage{pgfplots}" +:+ "\pgfplotsset{table/search path={/work}}"
         +:+ trailer)
  /\ generatePreambleFrom (sources true) dotted None
     = Ret (String "010" ("\usepackage{tikz}" +:+ newline) +:+ newline
            +:+ "\usepackage{pgfplots}"
            +:+ "\pgfplotsset{table/search path={/work/my.doc.tex}}" +:+ trailer)
  /\ parentFolder path = "/work"
  /\ parentFolder dotted = dotted.
Proof.
  pose proof (generatePreambleFrom_parsing (sources true) path None eq_refl)
    as (_ & Hfile & Hother).
  split; [reflexivity|]. split; [reflexivity|]. split.
  - exact (Hfile "/work" "doc" "tex" ltac:(discriminate) eq_refl ltac:(discriminate) eq_refl).
  - exact (Hother "/work" "my.doc.tex" eq_refl ltac:(vm_compute; discriminate)).
Defined.

Lemma generatePreambleFrom_without_parsing_witness :
  generatePreambleFrom (sources false) path None
  = generatePreambleFrom (sources false) "/nowhere.tex" (Some 3%nat).
Proof.
  exact (proj1 (generatePreambleFrom_without_parsing (sources false) path "/nowhere.tex"
                  None (Some 3%nat) eq_refl)).
Defined.

Lemma parsedWindow_first_lines_witness :
  parsedWindow ("a" +:+ newline +:+ "b" +:+ newline +:+ "c") (Some 2%nat)
  = "a" +:+ newline +:+ "b".
Proof.
  exact (proj1 (parsedWindow_first_lines ("a" +:+ newline +:+ "b" +:+ newline +:+ "c") 1)
           ("a" +:+ newline +:+ "b") "c" eq_refl eq_refl).
Defined.

End MoreRuns.
